(** * The event indexing engine of evm-tvl-aggregator

    A shallow embedding of [internal/indexer] (processors.go, models.go,
    indexer.go and storage.go) and of the few functions of go-ethereum and of
    the Go runtime that this package calls, followed by the properties of the
    engine: log decoding, dispatch to the registered processors, the window
    generator of the historical scanner, the start-block resolution and the
    two storage back ends.

    Conventions.
    - A [uint64] is a [Z] in [0, 2^64); additions and subtractions of the
      source are written with their wrap-around ([U64.add], [U64.sub]).
    - A byte slice is a [list byte]; fixed-size arrays ([common.Hash],
      [common.Address]) are byte lists too.
    - A Go call returns an [outcome]: a value, an [error], or a run-time
      panic (index or slice bound out of range).
    - A Go map ranged over by [for ... range] has no fixed iteration order:
      functions that range over a map take the order of that traversal as an
      argument, and [range_order] says which orders a map allows. *)

From Stdlib Require Import ZArith.
From Stdlib.Strings Require Import Ascii Byte.
From stdpp Require Import gmap strings list fin_maps pretty.

Open Scope Z_scope.

(* ===================================================================== *)
(** ** Machine integers *)
(* ===================================================================== *)

Module U64.
Definition modulus : Z := 2 ^ 64.
Definition wrap (z : Z) : Z := z mod modulus.
Definition add (a b : Z) : Z := wrap (a + b).
Definition sub (a b : Z) : Z := wrap (a - b).
Definition in_range (z : Z) : Prop := 0 ≤ z < modulus.
End U64.

(* ===================================================================== *)
(** ** Bytes and byte slices *)
(* ===================================================================== *)

Global Instance byte_eq_dec : EqDecision byte := Byte.byte_eq_dec.

Global Instance byte_countable : Countable byte :=
  inj_countable' Ascii.ascii_of_byte Ascii.byte_of_ascii Ascii.byte_of_ascii_of_byte.

Definition byte_to_Z (b : byte) : Z := Z.of_N (Byte.to_N b).

Definition byte_of_Z (z : Z) : byte :=
  default "000"%byte (Byte.of_N (Z.to_N (z mod 256))).

(** [[]byte(s)] for a Go string. *)
Definition bytes_of_string (s : string) : list byte :=
  String.list_byte_of_string s.

(** The slice expression [s[lo:hi]]. It panics when [hi] exceeds the capacity
    of [s]; the byte slices of a log come from the RPC decoder, which
    allocates them at their exact length, so the capacity is taken to be the
    length (for an empty slice both are 0 in any case). *)
Definition go_slice (s : list byte) (lo hi : nat) : option (list byte) :=
  if decide (lo ≤ hi ∧ hi ≤ length s)%nat then Some (take (hi - lo) (drop lo s))
  else None.

(** What a Go function call can do: return a value, return an error, or
    panic. A panic is not recovered anywhere in the package, so it unwinds the
    goroutine and ends the process. *)
Inductive outcome (A : Type) : Type :=
  | Ret (a : A)
  | Err (msg : string)
  | Panic (msg : string).
Arguments Ret {A} a.
Arguments Err {A} msg.
Arguments Panic {A} msg.

Global Instance outcome_ret : MRet outcome := λ A a, Ret a.

Global Instance outcome_bind : MBind outcome := λ A B k o,
  match o with
  | Ret a => k a
  | Err m => Err m
  | Panic m => Panic m
  end.

Global Instance outcome_fmap : FMap outcome := λ A B f o,
  match o with
  | Ret a => Ret (f a)
  | Err m => Err m
  | Panic m => Panic m
  end.

Definition index_panic : string := "index out of range".
Definition slice_panic : string := "slice bounds out of range".

(** [s[i]] on a slice. *)
Definition go_index {A} (s : list A) (i : nat) : outcome A :=
  match s !! i with
  | Some a => Ret a
  | None => Panic index_panic
  end.

(** [s[lo:hi]] as an outcome. *)
Definition go_subslice (s : list byte) (lo hi : nat) : outcome (list byte) :=
  match go_slice s lo hi with
  | Some r => Ret r
  | None => Panic slice_panic
  end.

(* ===================================================================== *)
(** ** math/big *)
(* ===================================================================== *)

Module big.
(** [new(big.Int).SetBytes(buf)]: [buf] read as a big-endian unsigned
    integer. *)
Definition SetBytes (buf : list byte) : Z :=
  foldl (λ acc b, acc * 256 + byte_to_Z b) 0 buf.

(** [x.String()]: the base-10 representation. *)
Definition String (x : Z) : string := pretty x.
End big.

(* ===================================================================== *)
(** ** crypto: Keccak-256 *)
(* ===================================================================== *)

Module crypto.
Definition rotl64 (x n : Z) : Z :=
  Z.lor (Z.land (Z.shiftl x n) (2 ^ 64 - 1)) (Z.shiftr x (64 - n)).

Definition round_constants : list Z :=
  [0x0000000000000001; 0x0000000000008082; 0x800000000000808A;
   0x8000000080008000; 0x000000000000808B; 0x0000000080000001;
   0x8000000080008081; 0x8000000000008009; 0x000000000000008A;
   0x0000000000000088; 0x0000000080008009; 0x000000008000000A;
   0x000000008000808B; 0x800000000000008B; 0x8000000000008089;
   0x8000000000008003; 0x8000000000008002; 0x8000000000000080;
   0x000000000000800A; 0x800000008000000A; 0x8000000080008081;
   0x8000000000008080; 0x0000000080000001; 0x8000000080008008].

(** Rotation offsets; lane (x, y) is at position x + 5 * y. *)
Definition rotation_offsets : list Z :=
  [ 0;  1; 62; 28; 27;
   36; 44;  6; 55; 20;
    3; 10; 43; 25; 39;
   41; 45; 15; 21;  8;
   18;  2; 61; 56; 14].

Definition lane (st : list Z) (x y : nat) : Z :=
  nth (x mod 5 + 5 * (y mod 5))%nat st 0.

Definition positions : list nat := seq 0 25.

Definition keccak_round (st : list Z) (rc : Z) : list Z :=
  let C := (λ x, foldl Z.lxor 0 ((λ y, lane st x y) <$> seq 0 5)) <$> seq 0 5 in
  let D := (λ x, Z.lxor (nth ((x + 4) mod 5)%nat C 0)
                        (rotl64 (nth ((x + 1) mod 5)%nat C 0) 1)) <$> seq 0 5 in
  let A := (λ i, Z.lxor (nth i st 0) (nth (i mod 5)%nat D 0)) <$> positions in
  let B := (λ i,
             let X := (i mod 5)%nat in
             let Y := (i / 5)%nat in
             let x := ((X + 3 * Y) mod 5)%nat in
             rotl64 (lane A x X) (nth (x + 5 * X)%nat rotation_offsets 0))
           <$> positions in
  let E := (λ i,
             let x := (i mod 5)%nat in
             let y := (i / 5)%nat in
             Z.lxor (lane B x y)
                    (Z.land (Z.lxor (lane B (x + 1) y) (2 ^ 64 - 1))
                            (lane B (x + 2) y)))
           <$> positions in
  match E with
  | e0 :: rest => Z.lxor e0 rc :: rest
  | [] => []
  end.

Definition keccak_f (st : list Z) : list Z := foldl keccak_round st round_constants.

Fixpoint le_bytes_to_Z (bs : list Z) : Z :=
  match bs with
  | [] => 0
  | b :: r => b + 256 * le_bytes_to_Z r
  end.

Fixpoint chunks {A} (n fuel : nat) (l : list A) : list (list A) :=
  match fuel with
  | O => []
  | S f =>
      match l with
      | [] => []
      | _ => take n l :: chunks n f (drop n l)
      end
  end.

(** Rate of Keccak-256 in bytes. *)
Definition rate : nat := 136.

(** The padding of the original Keccak (domain byte 0x01). *)
Definition pad (msg : list Z) : list Z :=
  let q := (rate - (length msg mod rate))%nat in
  if (q =? 1)%nat then msg ++ [0x81]
  else msg ++ [0x01] ++ replicate (q - 2) 0 ++ [0x80].

Definition absorb (st block : list Z) : list Z :=
  let lanes := le_bytes_to_Z <$> chunks 8 17 block in
  keccak_f ((λ i, Z.lxor (nth i st 0) (nth i lanes 0)) <$> positions).

Definition Z_to_le_bytes (n : nat) (z : Z) : list Z :=
  (λ i, Z.land (Z.shiftr z (8 * Z.of_nat i)) 255) <$> seq 0 n.

(** [crypto.Keccak256(data)]: the 32 bytes of the digest. *)
Definition Keccak256 (data : list byte) : list byte :=
  let p := pad (byte_to_Z <$> data) in
  let st := foldl absorb (replicate 25 0) (chunks rate (length p) p) in
  byte_of_Z <$> (take 4 st ≫= Z_to_le_bytes 8).

(** [crypto.Keccak256Hash(data)]. *)
Definition Keccak256Hash (data : list byte) : list byte := Keccak256 data.
End crypto.

Arguments crypto.Keccak256 : simpl never.
Arguments crypto.Keccak256Hash : simpl never.

(* ===================================================================== *)
(** ** common: hashes and addresses *)
(* ===================================================================== *)

Module common.
(** [common.Hash] is [[32]byte], [common.Address] is [[20]byte]. *)
Definition Hash : Type := list byte.
Definition Address : Type := list byte.

Definition HashLength : nat := 32.
Definition AddressLength : nat := 20.

(** [common.BytesToAddress(b)]: [b] cropped from the left to 20 bytes, or
    padded with zero bytes on the left. *)
Definition BytesToAddress (b : list byte) : Address :=
  let b' := if decide (AddressLength < length b)%nat
            then drop (length b - AddressLength) b else b in
  replicate (AddressLength - length b') "000"%byte ++ b'.

Definition hex_digit (n : Z) : Ascii.ascii :=
  default "0"%char (String.get (Z.to_nat n) "0123456789abcdef").

Fixpoint hex_encode (bs : list byte) : string :=
  match bs with
  | [] => ""
  | b :: r =>
      String.String (hex_digit (byte_to_Z b / 16))
        (String.String (hex_digit (byte_to_Z b mod 16)) (hex_encode r))
  end.

(** [h.Hex()] on a hash: "0x" and the lower-case hex digits. *)
Definition Hash_Hex (h : Hash) : string := "0x" +:+ hex_encode h.

Definition upper (c : Ascii.ascii) : Ascii.ascii :=
  Ascii.ascii_of_N (Ascii.N_of_ascii c - 32).

(** The loop of [checksumHex]: digit [i] of the lower-case encoding becomes
    upper case when it is a letter and nibble [i] of the hash is above 7. *)
Fixpoint checksum_digits (digits : list Ascii.ascii) (hash : list byte) (i : nat)
    : list Ascii.ascii :=
  match digits with
  | [] => []
  | c :: r =>
      let hashByte := byte_to_Z (default "000"%byte (hash !! (i / 2)%nat)) in
      let nib := if Nat.even i then hashByte / 16 else hashByte mod 16 in
      (if decide (Z.of_N (Ascii.N_of_ascii "9") < Z.of_N (Ascii.N_of_ascii c) ∧ 7 < nib)
       then upper c else c) :: checksum_digits r hash (S i)
  end.

(** [a.Hex()] on an address: the EIP-55 mixed-case encoding. *)
Definition Address_Hex (a : Address) : string :=
  let lower := hex_encode a in
  let hash := crypto.Keccak256 (bytes_of_string lower) in
  "0x" +:+ String.string_of_list_ascii
             (checksum_digits (String.list_ascii_of_string lower) hash 0).
(** [reverseHexTable] of encoding/hex: the value of a hex digit, in either
    case. *)
Definition hex_value (c : Ascii.ascii) : option Z :=
  let n := Z.of_N (Ascii.N_of_ascii c) in
  if decide (48 ≤ n ≤ 57) then Some (n - 48)
  else if decide (97 ≤ n ≤ 102) then Some (n - 87)
  else if decide (65 ≤ n ≤ 70) then Some (n - 55)
  else None.

(** [hex.DecodeString] as [Hex2Bytes] uses it, the error dropped: the bytes
    decoded before the first character that is not a hex digit. The caller
    makes the length even. *)
Fixpoint hex_decode (digits : list Ascii.ascii) : list byte :=
  match digits with
  | p :: q :: rest =>
      match hex_value p, hex_value q with
      | Some a, Some b => byte_of_Z (a * 16 + b) :: hex_decode rest
      | _, _ => []
      end
  | _ => []
  end.

Definition has0xPrefix (str : string) : bool :=
  match str with
  | String.String c0 (String.String c1 _) =>
      bool_decide (c0 = "0"%char) && (bool_decide (c1 = "x"%char) || bool_decide (c1 = "X"%char))
  | _ => false
  end.

(** [common.FromHex(s)] *)
Definition FromHex (s : string) : list byte :=
  let s := if has0xPrefix s then String.substring 2 (String.length s - 2) s else s in
  let s := if Nat.odd (String.length s) then "0" +:+ s else s in
  hex_decode (String.list_ascii_of_string s).

(** [common.HexToAddress(s)] *)
Definition HexToAddress (s : string) : Address := BytesToAddress (FromHex s).
End common.

(** The hash of an event signature, as the processors compute it:
    [crypto.Keccak256Hash([]byte(sig))]. *)
Definition sigHash (sig : string) : common.Hash :=
  crypto.Keccak256Hash (bytes_of_string sig).
Arguments sigHash : simpl never.

(* ===================================================================== *)
(** ** types.Log and the data model of the package (models.go) *)
(* ===================================================================== *)

Module types.
(** [types.Log] of go-ethereum, with the fields the package reads. *)
Record Log := mkLog {
  Address : common.Address;
  Topics : list common.Hash;
  Data : list byte;
  BlockNumber : Z;
  TxHash : common.Hash;
  BlockHash : common.Hash;
  Index : Z
}.
End types.

(** A value of an [EventData] map ([interface{}] in the source): the
    processors store addresses and strings. *)
Inductive Value : Type :=
  | VAddress (a : common.Address)
  | VString (s : string).

Global Instance Value_eq_dec : EqDecision Value.
Proof. solve_decision. Defined.

(** [type EventData map[string]interface{}] *)
Abbreviation EventData := (gmap string Value).

Module Block.
Record t := mk {
  ID : Z;
  Chain : string;
  Number : Z;
  Hash : string;
  Timestamp : Z
}.
End Block.

Module Event.
Record t := mk {
  ID : Z;
  Chain : string;
  BlockNumber : Z;
  BlockHash : string;
  TransactionHash : string;
  LogIndex : Z;
  Address : common.Address;
  EventName : string;
  Protocol : string;
  Data : EventData;
  Timestamp : Z
}.

Definition with_Chain (c : string) (e : t) : t :=
  mk (ID e) c (BlockNumber e) (BlockHash e) (TransactionHash e) (LogIndex e)
     (Address e) (EventName e) (Protocol e) (Data e) (Timestamp e).

Definition with_EventName (n : string) (e : t) : t :=
  mk (ID e) (Chain e) (BlockNumber e) (BlockHash e) (TransactionHash e)
     (LogIndex e) (Address e) n (Protocol e) (Data e) (Timestamp e).

Definition with_Data (d : EventData) (e : t) : t :=
  mk (ID e) (Chain e) (BlockNumber e) (BlockHash e) (TransactionHash e)
     (LogIndex e) (Address e) (EventName e) (Protocol e) d (Timestamp e).

(** The identity key of an event: (chain, transaction hash, log index). *)
Definition key (e : t) : string * string * Z :=
  (Chain e, TransactionHash e, LogIndex e).
End Event.

Global Instance Event_eq_dec : EqDecision Event.t.
Proof. solve_decision. Defined.

(** The [&Event{...}] literal that opens [Process] in the Uniswap and Aave
    processors: the fields copied from the log, the others at their zero
    value. *)
Definition newEvent (protocolName : string) (log : types.Log) : Event.t :=
  Event.mk 0 "" (types.BlockNumber log) (common.Hash_Hex (types.BlockHash log))
    (common.Hash_Hex (types.TxHash log)) (types.Index log) (types.Address log)
    "" protocolName ∅ 0.

(** The result of a decoder, a pointer to an event and an error: [Ret None]
    is the pair [nil, nil]. *)
Abbreviation decoded := (outcome (option Event.t)).

(** [new(big.Int).SetBytes(log.Data[lo:hi])] *)
Definition word (data : list byte) (lo hi : nat) : outcome Z :=
  big.SetBytes <$> go_subslice data lo hi.

(** [common.BytesToAddress(log.Topics[i].Bytes())] *)
Definition topicAddress (log : types.Log) (i : nat) : outcome Value :=
  (λ h, VAddress (common.BytesToAddress h)) <$> go_index (types.Topics log) i.

Definition amountString (x : Z) : Value := VString (big.String x).

(* ===================================================================== *)
(** ** processors.go *)
(* ===================================================================== *)

(** The interface [EventProcessor]: an interface value carries its methods. *)
Record EventProcessor := mkEventProcessor {
  Process : types.Log → decoded;
  GetEventSignatures : list common.Hash;
  GetProtocolName : string
}.

Module UniswapV2Processor.
Record t := mk { protocolName : string; factoryAddr : common.Address }.

Definition New (factory : common.Address) : t := mk "uniswap-v2" factory.

Definition SwapSig : common.Hash :=
  sigHash "Swap(address,uint256,uint256,uint256,uint256,address)".
Definition MintSig : common.Hash := sigHash "Mint(address,uint256,uint256)".
Definition BurnSig : common.Hash := sigHash "Burn(address,uint256,uint256,address)".
Definition SyncSig : common.Hash := sigHash "Sync(uint112,uint112)".

Definition GetProtocolName (p : t) : string := protocolName p.

Definition GetEventSignatures (p : t) : list common.Hash :=
  [SwapSig; MintSig; BurnSig; SyncSig].

Definition processSwap (p : t) (event : Event.t) (log : types.Log) : decoded :=
  let event := Event.with_EventName "Swap" event in
  if decide (length (types.Data log) < 128)%nat then Err "invalid swap data"
  else
    amount0In ← word (types.Data log) 0 32;
    amount1In ← word (types.Data log) 32 64;
    amount0Out ← word (types.Data log) 64 96;
    amount1Out ← word (types.Data log) 96 128;
    sender ← topicAddress log 1;
    to ← topicAddress log 2;
    Ret (Some (Event.with_Data
      (<["sender" := sender]> (<["to" := to]>
       (<["amount0_in" := amountString amount0In]>
       (<["amount1_in" := amountString amount1In]>
       (<["amount0_out" := amountString amount0Out]>
       (<["amount1_out" := amountString amount1Out]> ∅)))))) event)).

Definition processMint (p : t) (event : Event.t) (log : types.Log) : decoded :=
  let event := Event.with_EventName "Mint" event in
  if decide (length (types.Data log) < 64)%nat then Err "invalid mint data"
  else
    amount0 ← word (types.Data log) 0 32;
    amount1 ← word (types.Data log) 32 64;
    sender ← topicAddress log 1;
    Ret (Some (Event.with_Data
      (<["sender" := sender]>
       (<["amount0" := amountString amount0]>
       (<["amount1" := amountString amount1]> ∅))) event)).

Definition processBurn (p : t) (event : Event.t) (log : types.Log) : decoded :=
  let event := Event.with_EventName "Burn" event in
  if decide (length (types.Data log) < 64)%nat then Err "invalid burn data"
  else
    amount0 ← word (types.Data log) 0 32;
    amount1 ← word (types.Data log) 32 64;
    sender ← topicAddress log 1;
    to ← topicAddress log 2;
    Ret (Some (Event.with_Data
      (<["sender" := sender]> (<["to" := to]>
       (<["amount0" := amountString amount0]>
       (<["amount1" := amountString amount1]> ∅)))) event)).

Definition processSync (p : t) (event : Event.t) (log : types.Log) : decoded :=
  let event := Event.with_EventName "Sync" event in
  if decide (length (types.Data log) < 64)%nat then Err "invalid sync data"
  else
    reserve0 ← word (types.Data log) 0 32;
    reserve1 ← word (types.Data log) 32 64;
    Ret (Some (Event.with_Data
      (<["reserve0" := amountString reserve0]>
       (<["reserve1" := amountString reserve1]> ∅)) event)).

Definition Process (p : t) (log : types.Log) : decoded :=
  match types.Topics log with
  | [] => Err "no topics in log"
  | topic0 :: _ =>
      let event := newEvent (protocolName p) log in
      if decide (topic0 = SwapSig) then processSwap p event log
      else if decide (topic0 = MintSig) then processMint p event log
      else if decide (topic0 = BurnSig) then processBurn p event log
      else if decide (topic0 = SyncSig) then processSync p event log
      else Err "unknown event signature"
  end.

Definition processor (p : t) : EventProcessor :=
  mkEventProcessor (Process p) (GetEventSignatures p) (GetProtocolName p).
End UniswapV2Processor.

Module AaveV3Processor.
Record t := mk { protocolName : string; poolAddr : common.Address }.

Definition New (pool : common.Address) : t := mk "aave-v3" pool.

Definition SupplySig : common.Hash :=
  sigHash "Supply(address,address,address,uint256,uint16)".
Definition WithdrawSig : common.Hash :=
  sigHash "Withdraw(address,address,address,uint256)".
Definition BorrowSig : common.Hash :=
  sigHash "Borrow(address,address,address,uint256,uint8,uint256,uint16)".
Definition RepaySig : common.Hash :=
  sigHash "Repay(address,address,address,uint256,bool)".

Definition GetProtocolName (p : t) : string := protocolName p.

Definition GetEventSignatures (p : t) : list common.Hash :=
  [SupplySig; WithdrawSig; BorrowSig; RepaySig].

Definition processSupply (p : t) (event : Event.t) (log : types.Log) : decoded :=
  let event := Event.with_EventName "Supply" event in
  if decide (length (types.Topics log) < 4)%nat then Err "invalid supply topics"
  else
    amount ← word (types.Data log) 0 32;
    reserve ← topicAddress log 1;
    user ← topicAddress log 2;
    onBehalf ← topicAddress log 3;
    Ret (Some (Event.with_Data
      (<["reserve" := reserve]> (<["user" := user]> (<["on_behalf" := onBehalf]>
       (<["amount" := amountString amount]> ∅)))) event)).

Definition processWithdraw (p : t) (event : Event.t) (log : types.Log) : decoded :=
  let event := Event.with_EventName "Withdraw" event in
  if decide (length (types.Topics log) < 4)%nat then Err "invalid withdraw topics"
  else
    amount ← word (types.Data log) 0 32;
    reserve ← topicAddress log 1;
    user ← topicAddress log 2;
    to ← topicAddress log 3;
    Ret (Some (Event.with_Data
      (<["reserve" := reserve]> (<["user" := user]> (<["to" := to]>
       (<["amount" := amountString amount]> ∅)))) event)).

Definition processBorrow (p : t) (event : Event.t) (log : types.Log) : decoded :=
  let event := Event.with_EventName "Borrow" event in
  if decide (length (types.Topics log) < 4)%nat then Err "invalid borrow topics"
  else
    amount ← word (types.Data log) 0 32;
    reserve ← topicAddress log 1;
    onBehalf ← topicAddress log 2;
    user ← topicAddress log 3;
    Ret (Some (Event.with_Data
      (<["reserve" := reserve]> (<["on_behalf" := onBehalf]> (<["user" := user]>
       (<["amount" := amountString amount]> ∅)))) event)).

Definition processRepay (p : t) (event : Event.t) (log : types.Log) : decoded :=
  let event := Event.with_EventName "Repay" event in
  if decide (length (types.Topics log) < 4)%nat then Err "invalid repay topics"
  else
    amount ← word (types.Data log) 0 32;
    reserve ← topicAddress log 1;
    user ← topicAddress log 2;
    repayer ← topicAddress log 3;
    Ret (Some (Event.with_Data
      (<["reserve" := reserve]> (<["user" := user]> (<["repayer" := repayer]>
       (<["amount" := amountString amount]> ∅)))) event)).

Definition Process (p : t) (log : types.Log) : decoded :=
  match types.Topics log with
  | [] => Err "no topics in log"
  | topic0 :: _ =>
      let event := newEvent (protocolName p) log in
      if decide (topic0 = SupplySig) then processSupply p event log
      else if decide (topic0 = WithdrawSig) then processWithdraw p event log
      else if decide (topic0 = BorrowSig) then processBorrow p event log
      else if decide (topic0 = RepaySig) then processRepay p event log
      else Err "unknown event signature"
  end.

Definition processor (p : t) : EventProcessor :=
  mkEventProcessor (Process p) (GetEventSignatures p) (GetProtocolName p).
End AaveV3Processor.

Module GenericERC20Processor.
Record t := mk { protocolName : string; tokens : list common.Address }.

Definition New (protocolName : string) (tokens : list common.Address) : t :=
  mk protocolName tokens.

Definition TransferSig : common.Hash := sigHash "Transfer(address,address,uint256)".

Definition GetProtocolName (p : t) : string := protocolName p.

Definition GetEventSignatures (p : t) : list common.Hash := [TransferSig].

(** The loop that sets [isTracked]. *)
Fixpoint isTracked (addr : common.Address) (tokens : list common.Address) : bool :=
  match tokens with
  | [] => false
  | token :: rest => if decide (addr = token) then true else isTracked addr rest
  end.

Definition Process (p : t) (log : types.Log) : decoded :=
  if negb (isTracked (types.Address log) (tokens p)) then Ret None
  else if decide (length (types.Topics log) < 3)%nat then Err "invalid transfer topics"
  else
    let amount := big.SetBytes (types.Data log) in
    let blockHash := common.Hash_Hex (types.BlockHash log) in
    let txHash := common.Hash_Hex (types.TxHash log) in
    from ← topicAddress log 1;
    to ← topicAddress log 2;
    Ret (Some (Event.mk 0 "" (types.BlockNumber log) blockHash txHash
      (types.Index log) (types.Address log) "Transfer" (protocolName p)
      (<["from" := from]> (<["to" := to]>
       (<["amount" := amountString amount]>
       (<["token" := VString (common.Address_Hex (types.Address log))]> ∅))))
      0)).

Definition processor (p : t) : EventProcessor :=
  mkEventProcessor (Process p) (GetEventSignatures p) (GetProtocolName p).
End GenericERC20Processor.

(* ===================================================================== *)
(** ** storage.go *)
(* ===================================================================== *)

(** A Go [error]: [None] is [nil]. *)
Abbreviation error := (option string).

(** The interface [Storage] as the indexer uses it. The receiver is a
    pointer to a mutable store: every method takes the store and the writing
    methods return the new one. [GetEvents] is defined for the in-memory
    store below; the indexer never calls it. *)
Class Storage (S : Type) := {
  SaveBlock : Block.t → S → S * error;
  GetLastIndexedBlock : string → S → Z * error;
  SaveEvents : list Event.t → S → S * error
}.

Module MemoryStorage.
Record t := mk {
  blocks : gmap string (gmap Z Block.t);
  events : gmap string (list Event.t);
  lastBlocks : gmap string Z
}.

Definition New : t := mk ∅ ∅ ∅.

Definition SaveBlock (block : Block.t) (s : t) : t * error :=
  let chain := Block.Chain block in
  let chainBlocks := default ∅ (blocks s !! chain) in
  let blocks' := <[chain := <[Block.Number block := block]> chainBlocks]> (blocks s) in
  let lastBlocks' :=
    if decide (Block.Number block > default 0 (lastBlocks s !! chain))
    then <[chain := Block.Number block]> (lastBlocks s)
    else lastBlocks s in
  (mk blocks' (events s) lastBlocks', None).

Definition GetLastIndexedBlock (chain : string) (s : t) : Z * error :=
  (default 0 (lastBlocks s !! chain), None).

(** [s.events[event.Chain] = append(s.events[event.Chain], event)] *)
Definition appendEvent (m : gmap string (list Event.t)) (event : Event.t)
    : gmap string (list Event.t) :=
  <[Event.Chain event := default [] (m !! Event.Chain event) ++ [event]]> m.

Definition SaveEvents (evs : list Event.t) (s : t) : t * error :=
  (mk (blocks s) (foldl appendEvent (events s) evs) (lastBlocks s), None).

Definition GetEvents (chain : string) (from to : Z) (s : t)
    : list Event.t * error :=
  (filter (λ event, from ≤ Event.BlockNumber event ∧ Event.BlockNumber event ≤ to)
          (default [] (events s !! chain)), None).
End MemoryStorage.

Global Instance MemoryStorage_Storage : Storage MemoryStorage.t := {
  SaveBlock := MemoryStorage.SaveBlock;
  GetLastIndexedBlock := MemoryStorage.GetLastIndexedBlock;
  SaveEvents := MemoryStorage.SaveEvents
}.

(** The PostgreSQL store. The database is modelled by the rows of the two
    tables of [createTables], in insertion order, and each statement by its
    effect on them: an [INSERT] first coerces its values to the column types
    (a failure is the error of the statement and changes nothing), then
    applies its [ON CONFLICT] clause on the unique key. The serial [id] and
    the [created_at] default are not part of a row here. Faults of the
    connection are outside this model. *)
Module PostgresStorage.
Record BlockRow := mkBlockRow {
  b_chain : string;
  b_block_number : Z;
  b_block_hash : string;
  b_indexed_at : Z
}.

Record EventRow := mkEventRow {
  chain : string;
  block_number : Z;
  block_hash : string;
  transaction_hash : string;
  log_index : Z;
  address : string;
  event_name : string;
  protocol : string;
  data : EventData
}.

Record t := mk { indexed_blocks : list BlockRow; events : list EventRow }.

Definition New : t := mk [] [].

Definition all_spaces (s : string) : bool :=
  forallb (λ c, bool_decide (c = " "%char)) (String.list_ascii_of_string s).

(** Assignment to a [VARCHAR(n)] column: a longer value is an error unless
    the excess is made of spaces only, which are cut off. Lengths are counted
    in bytes, which is the number of characters for ASCII text. *)
Definition varchar (n : nat) (s : string) : outcome string :=
  if decide (String.length s ≤ n)%nat then Ret s
  else if all_spaces (String.substring n (String.length s - n) s)
       then Ret (String.substring 0 n s)
       else Err "pq: value too long for type character varying".

(** A [uint64] argument bound to a [BIGINT] column: the driver refuses
    values with the high bit set. *)
Definition bigint (z : Z) : outcome Z :=
  if decide (z < 2 ^ 63) then Ret z
  else Err "sql: uint64 values with high bit set are not supported".

(** A [uint] argument assigned to an [INT] column. *)
Definition int (z : Z) : outcome Z :=
  if decide (z < 2 ^ 31) then Ret z
  else Err "pq: value out of range for type integer".

Definition blockRow (block : Block.t) : outcome BlockRow :=
  c ← varchar 50 (Block.Chain block);
  n ← bigint (Block.Number block);
  h ← varchar 66 (Block.Hash block);
  Ret (mkBlockRow c n h (Block.Timestamp block)).

Definition same_block (r r' : BlockRow) : bool :=
  bool_decide (b_chain r = b_chain r' ∧ b_block_number r = b_block_number r').

(** [ON CONFLICT (chain, block_number) DO UPDATE SET indexed_at = ...] *)
Fixpoint upsertBlock (r : BlockRow) (rows : list BlockRow) : list BlockRow :=
  match rows with
  | [] => [r]
  | r' :: rest =>
      if same_block r r'
      then mkBlockRow (b_chain r') (b_block_number r') (b_block_hash r')
                      (b_indexed_at r) :: rest
      else r' :: upsertBlock r rest
  end.

Definition SaveBlock (block : Block.t) (s : t) : t * error :=
  match blockRow block with
  | Ret r => (mk (upsertBlock r (indexed_blocks s)) (events s), None)
  | Err e | Panic e => (s, Some e)
  end.

(** [SELECT block_number ... WHERE chain = $1 ORDER BY block_number DESC
    LIMIT 1], with [sql.ErrNoRows] turned into [0, nil]. *)
Definition GetLastIndexedBlock (chain : string) (s : t) : Z * error :=
  match b_block_number <$> filter (λ r, b_chain r = chain) (indexed_blocks s) with
  | [] => (0, None)
  | n :: ns => (foldl Z.max n ns, None)
  end.

Definition eventRow (event : Event.t) : outcome EventRow :=
  c ← varchar 50 (Event.Chain event);
  n ← bigint (Event.BlockNumber event);
  bh ← varchar 66 (Event.BlockHash event);
  th ← varchar 66 (Event.TransactionHash event);
  li ← int (Event.LogIndex event);
  a ← varchar 42 (common.Address_Hex (Event.Address event));
  en ← varchar 100 (Event.EventName event);
  p ← varchar 100 (Event.Protocol event);
  Ret (mkEventRow c n bh th li a en p (Event.Data event)).

Definition row_key (r : EventRow) : string * string * Z :=
  (chain r, transaction_hash r, log_index r).

(** [ON CONFLICT (chain, transaction_hash, log_index) DO NOTHING] *)
Definition insertEvent (r : EventRow) (rows : list EventRow) : list EventRow :=
  if bool_decide (row_key r ∈ row_key <$> rows) then rows else rows ++ [r].

(** The loop of [SaveEvents] inside the transaction: the first failing
    statement ends it. *)
Fixpoint execAll (evs : list Event.t) (rows : list EventRow)
    : outcome (list EventRow) :=
  match evs with
  | [] => Ret rows
  | event :: rest => r ← eventRow event; execAll rest (insertEvent r rows)
  end.

Definition SaveEvents (evs : list Event.t) (s : t) : t * error :=
  if decide (length evs = 0)%nat then (s, None)
  else
    match execAll evs (events s) with
    | Ret rows => (mk (indexed_blocks s) rows, None)
    | Err e | Panic e => (s, Some e)
    end.
End PostgresStorage.

Global Instance PostgresStorage_Storage : Storage PostgresStorage.t := {
  SaveBlock := PostgresStorage.SaveBlock;
  GetLastIndexedBlock := PostgresStorage.GetLastIndexedBlock;
  SaveEvents := PostgresStorage.SaveEvents
}.

(** A store that also keeps the list of the writing calls it received, oldest
    first: the observer used to state which storage calls a function makes. *)
Inductive StorageCall : Type :=
  | CallSaveBlock (block : Block.t)
  | CallSaveEvents (evs : list Event.t).

Global Instance Recorded_Storage {S} `{Storage S} : Storage (S * list StorageCall) := {
  SaveBlock block st :=
    let '(s, err) := SaveBlock block st.1 in ((s, st.2 ++ [CallSaveBlock block]), err);
  GetLastIndexedBlock chain st := GetLastIndexedBlock chain st.1;
  SaveEvents evs st :=
    let '(s, err) := SaveEvents evs st.1 in ((s, st.2 ++ [CallSaveEvents evs]), err)
}.

(* ===================================================================== *)
(** ** blockchain.Client *)
(* ===================================================================== *)

Module blockchain.
Record EventFilter := mkEventFilter {
  FromBlock : option Z;
  ToBlock : option Z;
  Addresses : list common.Address;
  Topics : list (list common.Hash)
}.

(** The RPC node behind a client: what [ethclient] answers. *)
Record Client := mkClient {
  BlockNumber : outcome Z;
  FilterLogs : EventFilter → outcome (list types.Log)
}.

Definition GetBlockNumber (c : Client) : outcome Z := BlockNumber c.

Definition GetLogs (c : Client) (filter : EventFilter) : outcome (list types.Log) :=
  match FilterLogs c filter with
  | Err e => Err ("failed to filter logs: " +:+ e)
  | r => r
  end.
(** [EventSignature(eventName)] *)
Definition EventSignature (eventName : string) : common.Hash :=
  crypto.Keccak256Hash (bytes_of_string eventName).

Record TransferEvent := mkTransferEvent {
  From : common.Address;
  To : common.Address;
  Amount : Z
}.

Definition ParseTransferEvent (log : types.Log) : outcome (option TransferEvent) :=
  if decide (length (types.Topics log) ≠ 3%nat) then Err "invalid transfer event topics"
  else
    t1 ← go_index (types.Topics log) 1;
    t2 ← go_index (types.Topics log) 2;
    Ret (Some (mkTransferEvent
      (common.HexToAddress (common.Hash_Hex t1))
      (common.HexToAddress (common.Hash_Hex t2))
      (big.SetBytes (types.Data log)))).
End blockchain.

(** The conversion [int64(x)] of a [uint64]. *)
Definition int64 (x : Z) : Z := if decide (x < 2 ^ 63) then x else x - 2 ^ 64.

(* ===================================================================== *)
(** ** indexer.go *)
(* ===================================================================== *)

Module Config.
Record t := mk {
  BatchSize : Z;
  WorkerCount : Z;
  BlockConfirmations : Z;
  RetryAttempts : Z;
  RetryDelay : Z;
  StartFromBlock : Z
}.
End Config.

(** The indexer: the processor map, keyed by protocol name, and the
    configuration. The storage it points to is passed to each function. *)
Record Indexer := mkIndexer {
  processors : gmap string EventProcessor;
  config : Config.t
}.

Definition NewIndexer (config : Config.t) : Indexer := mkIndexer ∅ config.

Definition RegisterProcessor (processor : EventProcessor) (idx : Indexer) : Indexer :=
  let name := GetProtocolName processor in
  mkIndexer (<[name := processor]> (processors idx)) (config idx).

(** The orders in which [for ... range m] may visit the entries of a map: any
    arrangement of them, chosen anew at each loop. *)
Definition range_order {V} (m : gmap string V) (order : list (string * V)) : Prop :=
  order ≡ₚ map_to_list m.

Definition getStartBlock {St} `{Storage St} (idx : Indexer) (chain : string)
    (client : blockchain.Client) (st : St) : outcome Z :=
  let '(lastIndexed, err) := GetLastIndexedBlock chain st in
  if decide (err = None ∧ lastIndexed > 0) then Ret (U64.add lastIndexed 1)
  else
    currentBlock ← blockchain.GetBlockNumber client;
    let startFrom := Config.StartFromBlock (config idx) in
    let startFrom := if decide (startFrom = 0) then 1000 else startFrom in
    if decide (currentBlock > startFrom) then Ret (U64.sub currentBlock startFrom)
    else Ret 0.

Record blockRange := mkRange { from : Z; to : Z }.

Global Instance blockRange_eq_dec : EqDecision blockRange.
Proof. solve_decision. Defined.

(** "Account for confirmations": the end block of the historical scan. *)
Definition effectiveEnd (currentBlock confirmations : Z) : Z :=
  if decide (currentBlock > confirmations) then U64.sub currentBlock confirmations
  else currentBlock.

(** The loop "Send work to workers" under a context that is not cancelled:
    the ranges sent on the job channel, in order. The loop need not end; it
    is run for at most [fuel] iterations and [None] says it was still
    running. *)
Fixpoint sendWork (fuel : nat) (fromBlock currentBlock batchSize : Z)
    : option (list blockRange) :=
  match fuel with
  | O => None
  | S fuel' =>
      if decide (fromBlock < currentBlock) then
        let toBlock := U64.sub (U64.add fromBlock batchSize) 1 in
        let toBlock := if decide (toBlock > currentBlock) then currentBlock else toBlock in
        (λ rest, mkRange fromBlock toBlock :: rest)
          <$> sendWork fuel' (U64.add toBlock 1) currentBlock batchSize
      else Some []
  end.

(** [indexHistoricalEvents] up to the closing of the job channel: the ranges
    handed to the workers. *)
Definition indexHistoricalEvents (fuel : nat) (idx : Indexer)
    (client : blockchain.Client) (fromBlock : Z) : outcome (option (list blockRange)) :=
  currentBlock ← blockchain.GetBlockNumber client;
  let currentBlock := effectiveEnd currentBlock (Config.BlockConfirmations (config idx)) in
  Ret (sendWork fuel fromBlock currentBlock (Config.BatchSize (config idx))).

(** How the inner loop of [processLog] leaves: it falls through to the next
    processor, returns from [processLog], or panics. *)
Inductive flow : Type :=
  | Continue
  | Return (r : option Event.t)
  | Crash (msg : string).

(** The loop over the signatures of one processor. *)
Fixpoint processLog_signatures (processor : EventProcessor) (chain : string)
    (log : types.Log) (signatures : list common.Hash) : flow :=
  match signatures with
  | [] => Continue
  | sig :: rest =>
      if decide (0 < length (types.Topics log) ∧ head (types.Topics log) = Some sig)%nat
      then
        match Process processor log with
        | Err _ => Return None
        | Panic m => Crash m
        | Ret (Some event) => Return (Some (Event.with_Chain chain event))
        | Ret None => processLog_signatures processor chain log rest
        end
      else processLog_signatures processor chain log rest
  end.

(** [processLog], ranging over the processor map in the given order. *)
Fixpoint processLog (order : list (string * EventProcessor)) (chain : string)
    (log : types.Log) : outcome (option Event.t) :=
  match order with
  | [] => Ret None
  | (_, processor) :: rest =>
      match processLog_signatures processor chain log (GetEventSignatures processor) with
      | Continue => processLog rest chain log
      | Return r => Ret r
      | Crash m => Panic m
      end
  end.

(** The set [sigMap] built by the first loop of [getAllEventSignatures]. *)
Definition sigMap (order : list (string * EventProcessor)) : gset common.Hash :=
  foldl (λ m p, foldl (λ m sig, {[sig]} ∪ m) m (GetEventSignatures p.2)) ∅ order.

(** [getAllEventSignatures] may return [signatures]: the keys of [sigMap] in
    one of the orders its second loop may visit them. *)
Definition getAllEventSignatures_returns (idx : Indexer)
    (signatures : list common.Hash) : Prop :=
  ∃ order, range_order (processors idx) order ∧ signatures ≡ₚ elements (sigMap order).

(** What the map traversals of one run of [processBatch] yield: the result of
    [getAllEventSignatures] and, for the i-th log, the order in which
    [processLog] visits the processors. *)
Record Ranging := mkRanging {
  signatures : list common.Hash;
  orders : nat → list (string * EventProcessor)
}.

Definition valid_ranging (idx : Indexer) (rg : Ranging) : Prop :=
  getAllEventSignatures_returns idx (signatures rg) ∧
  ∀ i, range_order (processors idx) (orders rg i).

(** The loop of [processBatch] over the fetched logs, from log number [i],
    appending to [events]. *)
Fixpoint decodeLogs (orders : nat → list (string * EventProcessor)) (chain : string)
    (i : nat) (logs : list types.Log) (events : list Event.t) : outcome (list Event.t) :=
  match logs with
  | [] => Ret events
  | log :: rest =>
      event ← processLog (orders i) chain log;
      decodeLogs orders chain (S i) rest
        (match event with Some e => events ++ [e] | None => events end)
  end.

(** [processBatch]; [now] is the reading of the clock for the block marker. *)
Definition processBatch {St} `{Storage St} (idx : Indexer) (rg : Ranging) (now : Z)
    (chain : string) (client : blockchain.Client) (from to : Z) (st : St)
    : St * outcome unit :=
  if decide (length (signatures rg) = 0)%nat then (st, Ret ())
  else
    let filter := blockchain.mkEventFilter (Some (int64 from)) (Some (int64 to)) []
                    [signatures rg] in
    match blockchain.GetLogs client filter with
    | Err e => (st, Err ("failed to get logs: " +:+ e))
    | Panic m => (st, Panic m)
    | Ret logs =>
        match decodeLogs (orders rg) chain 0 logs [] with
        | Err e => (st, Err e)
        | Panic m => (st, Panic m)
        | Ret events =>
            let '(st1, err) :=
              if decide (0 < length events)%nat then SaveEvents events st
              else (st, None) in
            match err with
            | Some e => (st1, Err ("failed to save events: " +:+ e))
            | None =>
                let block := Block.mk 0 chain to "" now in
                let '(st2, err) := SaveBlock block st1 in
                match err with
                | Some e => (st2, Err ("failed to save block: " +:+ e))
                | None => (st2, Ret ())
                end
            end
        end
    end.

(** One job of a worker and the jobs after it: an error of [processBatch] is
    printed (collected here) and the worker takes the next job; a panic ends
    it. [rgs] and [now] give the map traversals and the clock of the k-th
    job. *)
Fixpoint worker {St} `{Storage St} (idx : Indexer) (rgs : nat → Ranging) (now : nat → Z)
    (chain : string) (client : blockchain.Client) (k : nat) (jobs : list blockRange)
    (st : St) : St * outcome (list string) :=
  match jobs with
  | [] => (st, Ret [])
  | job :: rest =>
      match processBatch idx (rgs k) (now k) chain client (from job) (to job) st with
      | (st', Panic m) => (st', Panic m)
      | (st', Err e) =>
          let '(st'', r) := worker idx rgs now chain client (S k) rest st' in
          (st'', (λ l, e :: l) <$> r)
      | (st', Ret _) => worker idx rgs now chain client (S k) rest st'
      end
  end.

(* ===================================================================== *)
(** ** Vocabulary of the properties *)
(* ===================================================================== *)

(** The i-th 32-byte word of a payload. *)
Definition dataWord (data : list byte) (i : nat) : list byte :=
  take 32 (drop (32 * i) data).

(** The data map that [processSwap] builds from the payload and topics 1
    and 2. *)
Definition swapData (data : list byte) (t1 t2 : common.Hash) : EventData :=
  <["sender" := VAddress (common.BytesToAddress t1)]>
  (<["to" := VAddress (common.BytesToAddress t2)]>
  (<["amount0_in" := VString (big.String (big.SetBytes (dataWord data 0)))]>
  (<["amount1_in" := VString (big.String (big.SetBytes (dataWord data 1)))]>
  (<["amount0_out" := VString (big.String (big.SetBytes (dataWord data 2)))]>
  (<["amount1_out" := VString (big.String (big.SetBytes (dataWord data 3)))]> ∅))))).

(** The effective end as the specification words it: head minus
    confirmations, clamped so that it is not below the start block. *)
Definition spec_effectiveEnd (head confirmations start : Z) : Z :=
  Z.max start (head - confirmations).

(** The lookback of [getStartBlock]: the configured value, 1000 when it
    is 0. *)
Definition lookback (idx : Indexer) : Z :=
  if decide (Config.StartFromBlock (config idx) = 0) then 1000
  else Config.StartFromBlock (config idx).

(** [ranges] are successive inclusive windows that begin at [start], each
    beginning right after the previous one ends, the last one ending at
    [stop]. *)
Fixpoint tiles (start : Z) (ranges : list blockRange) (stop : Z) : Prop :=
  match ranges with
  | [] => start = stop + 1
  | r :: rest => from r = start ∧ start ≤ to r ∧ tiles (to r + 1) rest stop
  end.

Definition covers (r : blockRange) (b : Z) : Prop := from r ≤ b ≤ to r.

(** The block at which the windows of a scan from [start] to [currentBlock]
    end: [currentBlock], or the block before it when the distance is a
    multiple of the batch size. *)
Definition lastSent (start currentBlock batchSize : Z) : Z :=
  if decide ((currentBlock - start) mod batchSize = 0) then currentBlock - 1
  else currentBlock.

(** A sequence of [SaveBlock] calls, in the order in which the store's lock
    serialises them. *)
Definition saveBlocks {St} `{Storage St} (blocks : list Block.t) (st : St) : St :=
  foldl (λ st block, (SaveBlock block st).1) st blocks.

(** The value that [GetLastIndexedBlock] returns. *)
Definition lastIndexedBlock {St} `{Storage St} (chain : string) (st : St) : Z :=
  (GetLastIndexedBlock chain st).1.

(** The maximum that [ORDER BY block_number DESC LIMIT 1] selects, 0 for no
    row. *)
Definition maxOrZero (ns : list Z) : Z :=
  match ns with
  | [] => 0
  | n :: ns => foldl Z.max n ns
  end.

Definition chainNumbers (chain : string) (rows : list PostgresStorage.BlockRow) : list Z :=
  PostgresStorage.b_block_number <$> filter (λ r, PostgresStorage.b_chain r = chain) rows.

(** The events stored for a chain in the in-memory store. *)
Definition storedEvents (chain : string) (s : MemoryStorage.t) : list Event.t :=
  default [] (MemoryStorage.events s !! chain).

Definition rowKeys (rows : list PostgresStorage.EventRow) : list (string * string * Z) :=
  PostgresStorage.row_key <$> rows.

(** What [processLog] makes of the answer of the processor it gives the log
    to: an event gets its chain, an error is printed and the log dropped, a
    panic goes through. *)
Definition settle (chain : string) (answer : decoded) : outcome (option Event.t) :=
  match answer with
  | Ret (Some event) => Ret (Some (Event.with_Chain chain event))
  | Ret None => Ret None
  | Err _ => Ret None
  | Panic m => Panic m
  end.

(** The processor claims the log: topic 0 is one of its signatures. *)
Definition claimsLog (processor : EventProcessor) (log : types.Log) : Prop :=
  ∃ sig, head (types.Topics log) = Some sig ∧ sig ∈ GetEventSignatures processor.

(** The protocol of the decoder whose event [processLog] returned. *)
Definition routedTo (r : outcome (option Event.t)) : option string :=
  match r with
  | Ret (Some event) => Some (Event.Protocol event)
  | _ => None
  end.

(* ===================================================================== *)
(** ** Sample logs, registries and stores *)
(* ===================================================================== *)

Definition address_of_last_byte (b : byte) : common.Address :=
  replicate 19 "000"%byte ++ [b].

Definition hash_of_byte (b : byte) : common.Hash := replicate 32 b.

(** A Transfer log with a single topic, emitted by address 0x..02. *)
Definition untrackedTransferLog : types.Log :=
  types.mkLog (address_of_last_byte "002") [GenericERC20Processor.TransferSig] []
    7 (hash_of_byte "009") (hash_of_byte "008") 3.

Definition zeroWord : list byte := replicate 32 "000"%byte.

(** A Swap log: amount0In = 1000, amount1In = 0, amount0Out = 0,
    amount1Out = 2^64; sender 0x..aa and recipient 0x..bb. *)
Definition swapLog : types.Log :=
  types.mkLog (address_of_last_byte "001")
    [UniswapV2Processor.SwapSig;
     replicate 12 "000"%byte ++ address_of_last_byte "170";
     replicate 12 "000"%byte ++ address_of_last_byte "187"]
    ((replicate 30 "000"%byte ++ ["003"; "232"]%byte) ++ zeroWord ++ zeroWord
     ++ (replicate 23 "000"%byte ++ ["001"%byte] ++ replicate 8 "000"%byte))
    7 (hash_of_byte "009") (hash_of_byte "008") 3.

Definition uniswap : UniswapV2Processor.t :=
  UniswapV2Processor.New (address_of_last_byte "111").

(** The configuration of cmd/indexer/main.go. *)
Definition mainConfig : Config.t := Config.mk 10 1 12 3 5000000000 100.

Definition defaultLookbackConfig : Config.t := Config.mk 10 1 12 3 5000000000 0.

Definition nodeAt (head : Z) (logs : list types.Log) : blockchain.Client :=
  blockchain.mkClient (Ret head) (λ _, Ret logs).

(** The in-memory store after block 500 of "ethereum" was marked. *)
Definition checkpointed500 : MemoryStorage.t :=
  (MemoryStorage.SaveBlock (Block.mk 0 "ethereum" 500 "" 0) MemoryStorage.New).1.

(** The scan of the specification's example: batch size 10 and no
    confirmations margin. *)
Definition exampleConfig : Config.t := Config.mk 10 1 0 3 5000000000 100.

Definition marker (chain : string) (number : Z) : Block.t := Block.mk 0 chain number "" 0.

(** Windows completed out of order by concurrent workers. *)
Definition completedFirst : list Block.t := [marker "ethereum" 20; marker "ethereum" 10].
Definition completedLater : list Block.t := [marker "ethereum" 40; marker "ethereum" 30].

(** The event that the Uniswap processor decodes from [swapLog], on chain
    "ethereum". *)
Definition swapEvent : Event.t :=
  Event.with_Chain "ethereum"
    (Event.with_Data
       (swapData (types.Data swapLog)
          (replicate 12 "000"%byte ++ address_of_last_byte "170")
          (replicate 12 "000"%byte ++ address_of_last_byte "187"))
       (Event.with_EventName "Swap" (newEvent "uniswap-v2" swapLog))).

(** Two ERC-20 processors that track the same token, registered in the order
    D1, D2, and a Transfer log of that token. *)
Definition tokenA : common.Address := address_of_last_byte "001".

Definition D1 : EventProcessor :=
  GenericERC20Processor.processor (GenericERC20Processor.New "erc20-a" [tokenA]).

Definition D2 : EventProcessor :=
  GenericERC20Processor.processor (GenericERC20Processor.New "erc20-b" [tokenA]).

Definition registry12 : Indexer :=
  RegisterProcessor D2 (RegisterProcessor D1 (NewIndexer mainConfig)).

Definition transferLog : types.Log :=
  types.mkLog tokenA
    [GenericERC20Processor.TransferSig;
     replicate 12 "000"%byte ++ address_of_last_byte "170";
     replicate 12 "000"%byte ++ address_of_last_byte "187"]
    (replicate 31 "000"%byte ++ ["005"%byte])
    7 (hash_of_byte "009") (hash_of_byte "008") 3.

Definition aave : AaveV3Processor.t := AaveV3Processor.New (address_of_last_byte "222").

(** The registry of cmd/indexer/main.go: Uniswap V2, then Aave V3. *)
Definition mainRegistry : Indexer :=
  RegisterProcessor (AaveV3Processor.processor aave)
    (RegisterProcessor (UniswapV2Processor.processor uniswap) (NewIndexer mainConfig)).

Definition uniswapFirst : list (string * EventProcessor) :=
  [("uniswap-v2", UniswapV2Processor.processor uniswap);
   ("aave-v3", AaveV3Processor.processor aave)].

Definition aaveFirst : list (string * EventProcessor) :=
  [("aave-v3", AaveV3Processor.processor aave);
   ("uniswap-v2", UniswapV2Processor.processor uniswap)].

Definition mainRanging : Ranging :=
  mkRanging (elements (sigMap uniswapFirst)) (λ _, uniswapFirst).

(** A Supply log with its four topics and an empty data field. *)
Definition supplyLogNoData : types.Log :=
  types.mkLog (address_of_last_byte "222")
    [AaveV3Processor.SupplySig;
     replicate 12 "000"%byte ++ address_of_last_byte "001";
     replicate 12 "000"%byte ++ address_of_last_byte "170";
     replicate 12 "000"%byte ++ address_of_last_byte "170"]
    [] 7 (hash_of_byte "009") (hash_of_byte "008") 4.

(** A chain name of 58 characters: too long for the [VARCHAR(50)] column. *)
Definition longChainName : string :=
  "ethereum-mainnet-archive-cluster-eu-central-1-replica-0042".

(* ===================================================================== *)
(** * Properties *)
(* ===================================================================== *)


(** ** Byte slices and big-endian words *)

Lemma go_subslice_in_bounds (s : list byte) (lo hi : nat) :
  (lo ≤ hi)%nat → (hi ≤ length s)%nat →
  go_subslice s lo hi = Ret (take (hi - lo) (drop lo s)).
Proof.
  intros Hlo Hhi. unfold go_subslice, go_slice.
  destruct (decide _) as [_|Hn]; [reflexivity | exfalso; apply Hn; split; assumption].
Qed.

Lemma go_subslice_out_of_bounds (s : list byte) (lo hi : nat) :
  (length s < hi)%nat → go_subslice s lo hi = Panic slice_panic.
Proof.
  intros Hlen. unfold go_subslice, go_slice.
  destruct (decide _) as [[_ Hhi]|_]; [lia | reflexivity].
Qed.

Lemma word_in_bounds (data : list byte) (i : nat) :
  (32 * i + 32 ≤ length data)%nat →
  word data (32 * i) (32 * i + 32) = Ret (big.SetBytes (dataWord data i)).
Proof.
  intros Hlen. unfold word. rewrite go_subslice_in_bounds by lia.
  unfold dataWord. replace (32 * i + 32 - 32 * i)%nat with 32%nat by lia.
  reflexivity.
Qed.

Lemma SetBytes_foldl (acc : Z) (buf : list byte) :
  foldl (λ acc b, acc * 256 + byte_to_Z b) acc buf
  = acc * 256 ^ Z.of_nat (length buf) + big.SetBytes buf.
Proof.
  unfold big.SetBytes. revert acc.
  induction buf as [|b buf IH]; intros acc; simpl.
  - lia.
  - rewrite IH, (IH (0 * 256 + byte_to_Z b)).
    replace (Z.of_nat (S (length buf))) with (Z.succ (Z.of_nat (length buf))) by lia.
    rewrite Z.pow_succ_r by lia. lia.
Qed.

(** [SetBytes] reads its argument big-endian: the first byte is the most
    significant one. *)
Lemma SetBytes_cons (b : byte) (buf : list byte) :
  big.SetBytes (b :: buf)
  = byte_to_Z b * 256 ^ Z.of_nat (length buf) + big.SetBytes buf.
Proof.
  unfold big.SetBytes at 1. simpl. apply SetBytes_foldl.
Qed.

Lemma topicAddress_lookup (log : types.Log) (i : nat) (h : common.Hash) :
  types.Topics log !! i = Some h →
  topicAddress log i = Ret (VAddress (common.BytesToAddress h)).
Proof. intros Hi. unfold topicAddress, go_index. rewrite Hi. reflexivity. Qed.

Lemma topicAddress_missing (log : types.Log) (i : nat) :
  (length (types.Topics log) ≤ i)%nat → topicAddress log i = Panic index_panic.
Proof.
  intros Hi. unfold topicAddress, go_index.
  rewrite (lookup_ge_None_2 _ _ Hi). reflexivity.
Qed.

(** ** The ERC-20 processor *)

Lemma isTracked_spec (addr : common.Address) (tokens : list common.Address) :
  GenericERC20Processor.isTracked addr tokens = true ↔ addr ∈ tokens.
Proof.
  induction tokens as [|token rest IH]; simpl.
  - split; [discriminate | intros H; inversion H].
  - destruct (decide (addr = token)) as [->|Hne].
    + split; [intros _; left | reflexivity].
    + rewrite IH. split; [intros H; right; exact H |].
      intros H. inversion H; subst; [contradiction | assumption].
Qed.

(** C10. A log whose emitting address is not one of the tracked tokens makes
    [Process] of the ERC-20 processor return [nil, nil], whatever its topics
    and data are: the address test comes before the test on the number of
    topics. *)
Theorem erc20_untracked_address_skipped
    (p : GenericERC20Processor.t) (log : types.Log) :
  types.Address log ∉ GenericERC20Processor.tokens p →
  Process (GenericERC20Processor.processor p) log = Ret None.
Proof.
  intros Hnot. simpl. unfold GenericERC20Processor.Process.
  destruct (GenericERC20Processor.isTracked _ _) eqn:Htr; [|reflexivity].
  apply isTracked_spec in Htr. contradiction.
Qed.

(** For a tracked address the topic count is checked: fewer than three topics
    is an error. *)
Lemma erc20_tracked_short_topics_rejected
    (p : GenericERC20Processor.t) (log : types.Log) :
  types.Address log ∈ GenericERC20Processor.tokens p →
  (length (types.Topics log) < 3)%nat →
  Process (GenericERC20Processor.processor p) log = Err "invalid transfer topics".
Proof.
  intros Hin Hlen. simpl. unfold GenericERC20Processor.Process.
  apply isTracked_spec in Hin. rewrite Hin. simpl.
  destruct (decide _); [reflexivity | lia].
Qed.

Lemma erc20_untracked_address_skipped_witness :
  Process (GenericERC20Processor.processor
             (GenericERC20Processor.New "erc20" [address_of_last_byte "001"]))
          untrackedTransferLog = Ret None.
Proof.
  apply (erc20_untracked_address_skipped
           (GenericERC20Processor.New "erc20" [address_of_last_byte "001"])
           untrackedTransferLog).
  simpl. intros H. apply list_elem_of_singleton in H. discriminate H.
Defined.

(** ** The Uniswap V2 processor *)

Lemma processSwap_decodes (p : UniswapV2Processor.t) (event : Event.t)
    (log : types.Log) (t1 t2 : common.Hash) :
  (128 ≤ length (types.Data log))%nat →
  types.Topics log !! 1%nat = Some t1 →
  types.Topics log !! 2%nat = Some t2 →
  UniswapV2Processor.processSwap p event log
  = Ret (Some (Event.with_Data (swapData (types.Data log) t1 t2)
                 (Event.with_EventName "Swap" event))).
Proof.
  intros Hlen H1 H2. unfold UniswapV2Processor.processSwap.
  destruct (decide _) as [Hshort|_]; [lia|].
  rewrite (word_in_bounds _ 0), (word_in_bounds _ 1),
    (word_in_bounds _ 2), (word_in_bounds _ 3) by lia.
  rewrite (topicAddress_lookup _ _ _ H1), (topicAddress_lookup _ _ _ H2).
  reflexivity.
Qed.

Lemma processSwap_short_data (p : UniswapV2Processor.t) (event : Event.t)
    (log : types.Log) :
  (length (types.Data log) < 128)%nat →
  UniswapV2Processor.processSwap p event log = Err "invalid swap data".
Proof.
  intros Hlen. unfold UniswapV2Processor.processSwap.
  destruct (decide _); [reflexivity | lia].
Qed.

Lemma uniswap_Process_swap (p : UniswapV2Processor.t) (log : types.Log) :
  head (types.Topics log) = Some UniswapV2Processor.SwapSig →
  UniswapV2Processor.Process p log
  = UniswapV2Processor.processSwap p
      (newEvent (UniswapV2Processor.protocolName p) log) log.
Proof.
  intros Hhead. unfold UniswapV2Processor.Process.
  destruct (types.Topics log) as [|topic0 rest]; [discriminate|].
  simpl in Hhead. injection Hhead as ->.
  destruct (decide _) as [_|Hne]; [reflexivity | contradiction].
Qed.

(** C9. A log whose topic 0 is the hash of the Swap signature, with at least
    128 bytes of data and at least three topics, decodes to an event named
    Swap whose data map binds the four amounts to the base-10 strings of the
    four consecutive 32-byte big-endian words of the payload and [sender] and
    [to] to the addresses of topics 1 and 2; with fewer than 128 bytes of data
    the decoder returns an error. *)
Theorem uniswap_swap_decoding (p : UniswapV2Processor.t) (log : types.Log) :
  head (types.Topics log) = Some UniswapV2Processor.SwapSig →
  ((128 ≤ length (types.Data log))%nat → (3 ≤ length (types.Topics log))%nat →
   ∃ (event : Event.t) (t1 t2 : common.Hash),
     Process (UniswapV2Processor.processor p) log = Ret (Some event) ∧
     types.Topics log !! 1%nat = Some t1 ∧
     types.Topics log !! 2%nat = Some t2 ∧
     Event.EventName event = "Swap" ∧
     Event.Data event !! "amount0_in"
       = Some (VString (big.String (big.SetBytes (dataWord (types.Data log) 0)))) ∧
     Event.Data event !! "amount1_in"
       = Some (VString (big.String (big.SetBytes (dataWord (types.Data log) 1)))) ∧
     Event.Data event !! "amount0_out"
       = Some (VString (big.String (big.SetBytes (dataWord (types.Data log) 2)))) ∧
     Event.Data event !! "amount1_out"
       = Some (VString (big.String (big.SetBytes (dataWord (types.Data log) 3)))) ∧
     Event.Data event !! "sender" = Some (VAddress (common.BytesToAddress t1)) ∧
     Event.Data event !! "to" = Some (VAddress (common.BytesToAddress t2))) ∧
  ((length (types.Data log) < 128)%nat →
   Process (UniswapV2Processor.processor p) log = Err "invalid swap data").
Proof.
  intros Hhead. split.
  - intros Hdata Htopics.
    destruct (lookup_lt_is_Some_2 (types.Topics log) 1) as [t1 H1]; [lia|].
    destruct (lookup_lt_is_Some_2 (types.Topics log) 2) as [t2 H2]; [lia|].
    eexists _, t1, t2. simpl.
    rewrite (uniswap_Process_swap _ _ Hhead).
    rewrite (processSwap_decodes _ _ _ _ _ Hdata H1 H2).
    split; [reflexivity|]. do 3 (split; [done|]).
    unfold swapData. simpl.
    repeat split; by simplify_map_eq.
  - intros Hdata. simpl.
    rewrite (uniswap_Process_swap _ _ Hhead).
    by apply processSwap_short_data.
Qed.

Lemma uniswap_swap_decoding_witness :
  ∃ event : Event.t,
    Process (UniswapV2Processor.processor uniswap) swapLog = Ret (Some event) ∧
    Event.Data event !! "amount0_in" = Some (VString "1000") ∧
    Event.Data event !! "amount1_out" = Some (VString "18446744073709551616") ∧
    Event.Data event !! "sender" = Some (VAddress (address_of_last_byte "170")).
Proof.
  destruct (uniswap_swap_decoding uniswap swapLog eq_refl) as [Hdecode _].
  destruct Hdecode as (event & t1 & t2 & Hev & H1 & H2 & _ & H0in & _ & _ & H1out & Hs & _).
  - vm_compute. lia.
  - vm_compute. lia.
  - exists event. injection H1 as <-.
    split; [exact Hev|]. split; [exact H0in|]. split; [exact H1out | exact Hs].
Defined.

(** ** The end block of the historical scan *)

Lemma U64_sub_no_borrow (a b : Z) :
  U64.in_range a → 0 ≤ b ≤ a → U64.sub a b = a - b.
Proof.
  unfold U64.in_range, U64.sub, U64.wrap, U64.modulus. intros Ha Hb.
  apply Z.mod_small. lia.
Qed.

Lemma U64_add_no_carry (a b : Z) :
  0 ≤ a → 0 ≤ b → a + b < U64.modulus → U64.add a b = a + b.
Proof.
  unfold U64.add, U64.wrap. intros Ha Hb Hlt. apply Z.mod_small. lia.
Qed.

Lemma sendWork_nothing_to_do (fuel : nat) (fromBlock currentBlock batchSize : Z) :
  currentBlock ≤ fromBlock →
  sendWork (S fuel) fromBlock currentBlock batchSize = Some [].
Proof.
  intros Hle. simpl. destruct (decide _); [lia | reflexivity].
Qed.

(** C4, as the code has it. The end block of the scan is head minus
    confirmations when the head is above the confirmations margin, and the
    head itself otherwise; it does not depend on the start block, and when it
    is at or below the start block the scanner sends no window. *)
Theorem effectiveEnd_guarded (head confirmations start batchSize : Z) (fuel : nat) :
  U64.in_range head → U64.in_range confirmations →
  (confirmations < head → effectiveEnd head confirmations = head - confirmations) ∧
  (head ≤ confirmations → effectiveEnd head confirmations = head) ∧
  0 ≤ effectiveEnd head confirmations ≤ head ∧
  (effectiveEnd head confirmations ≤ start →
   sendWork (S fuel) start (effectiveEnd head confirmations) batchSize = Some []).
Proof.
  intros Hh Hc. unfold effectiveEnd.
  destruct (decide (head > confirmations)) as [Hgt|Hle].
  - rewrite U64_sub_no_borrow by (unfold U64.in_range in *; lia).
    unfold U64.in_range in *.
    repeat split; try lia. intros Hs. by apply sendWork_nothing_to_do.
  - unfold U64.in_range in *.
    repeat split; try lia. intros Hs. by apply sendWork_nothing_to_do.
Qed.

Lemma effectiveEnd_guarded_witness :
  (12 < 100 → effectiveEnd 100 12 = 100 - 12) ∧
  (100 ≤ 12 → effectiveEnd 100 12 = 100) ∧
  0 ≤ effectiveEnd 100 12 ≤ 100 ∧
  (effectiveEnd 100 12 ≤ 95 → sendWork 1 95 (effectiveEnd 100 12) 10 = Some []).
Proof.
  apply (effectiveEnd_guarded 100 12 95 10 0); unfold U64.in_range, U64.modulus; lia.
Defined.

(** C4 as stated fails: with head 100, 12 confirmations and start block 95
    the end block of the scan is 88, below the start block; with head 10 and
    12 confirmations it is 10, not the start block 0, and the scan from block
    0 sends the window [0, 9]. *)
Lemma effectiveEnd_not_clamped :
  effectiveEnd 100 12 ≠ spec_effectiveEnd 100 12 95 ∧
  effectiveEnd 100 12 = 88 ∧
  effectiveEnd 10 12 ≠ spec_effectiveEnd 10 12 0 ∧
  effectiveEnd 10 12 = 10 ∧
  sendWork 5 0 (effectiveEnd 10 12) 10 = Some [mkRange 0 9] ∧
  sendWork 5 0 (spec_effectiveEnd 10 12 0) 10 = Some [].
Proof. vm_compute. repeat split; (reflexivity || discriminate). Qed.

(** ** The start block *)

(** C5. With a stored checkpoint N > 0 the start block is N + 1 (in uint64
    arithmetic, which is N + 1 below the top of the range). With no
    checkpoint (the store answers 0) the start block is the current head
    minus the lookback, the configured value or 1000 when that is 0, and it is
    0 when the head does not exceed the lookback. *)
Theorem getStartBlock_resolution {St} `{Storage St} (idx : Indexer) (chain : string)
    (client : blockchain.Client) (st : St) (N head : Z) :
  U64.in_range N → U64.in_range head →
  U64.in_range (Config.StartFromBlock (config idx)) →
  (GetLastIndexedBlock chain st = (N, None) → N > 0 →
   getStartBlock idx chain client st = Ret (U64.add N 1) ∧
   (N < U64.modulus - 1 → U64.add N 1 = N + 1)) ∧
  (GetLastIndexedBlock chain st = (0, None) →
   blockchain.GetBlockNumber client = Ret head →
   (head > lookback idx →
    getStartBlock idx chain client st = Ret (head - lookback idx)) ∧
   (head ≤ lookback idx → getStartBlock idx chain client st = Ret 0)).
Proof.
  intros HN Hhead Hcfg. split.
  - intros Hlast Hpos. split.
    + unfold getStartBlock. rewrite Hlast.
      destruct (decide _) as [_|Hn]; [reflexivity|].
      exfalso. apply Hn. split; [reflexivity | exact Hpos].
    + intros Htop. apply U64_add_no_carry; unfold U64.in_range in *; lia.
  - intros Hlast Hnum.
    assert (Hlook : 0 < lookback idx < U64.modulus).
    { unfold lookback, U64.in_range, U64.modulus in *. destruct (decide _); lia. }
    assert (Hrun : getStartBlock idx chain client st
                   = if decide (head > lookback idx)
                     then Ret (U64.sub head (lookback idx)) else Ret 0).
    { unfold getStartBlock. rewrite Hlast.
      destruct (decide (None = None ∧ 0 > 0)) as [[_ Habs]|_]; [lia|].
      rewrite Hnum. reflexivity. }
    rewrite Hrun. split; intros Hcmp.
    + destruct (decide _) as [_|Hn]; [|lia].
      rewrite U64_sub_no_borrow by (unfold U64.in_range in *; lia). reflexivity.
    + destruct (decide _) as [Hgt|_]; [lia | reflexivity].
Qed.

Lemma getStartBlock_resolution_witness :
  getStartBlock (NewIndexer mainConfig) "ethereum" (nodeAt 5000 []) checkpointed500
    = Ret 501 ∧
  getStartBlock (NewIndexer mainConfig) "ethereum" (nodeAt 5000 []) MemoryStorage.New
    = Ret 4900 ∧
  getStartBlock (NewIndexer defaultLookbackConfig) "ethereum" (nodeAt 5000 [])
    MemoryStorage.New = Ret 4000 ∧
  getStartBlock (NewIndexer defaultLookbackConfig) "ethereum" (nodeAt 700 [])
    MemoryStorage.New = Ret 0.
Proof.
  assert (Hr : ∀ z, 0 ≤ z < 2 ^ 64 → U64.in_range z) by (intros z Hz; exact Hz).
  split; [|split; [|split]].
  - refine (proj1 (proj1 (getStartBlock_resolution (NewIndexer mainConfig) "ethereum"
      (nodeAt 5000 []) checkpointed500 500 5000 _ _ _) _ _));
      first [apply Hr; simpl; lia | reflexivity | lia].
  - refine (proj1 (proj2 (getStartBlock_resolution (NewIndexer mainConfig) "ethereum"
      (nodeAt 5000 []) MemoryStorage.New 1 5000 _ _ _) _ _) _);
      first [apply Hr; simpl; lia | reflexivity | vm_compute; reflexivity].
  - refine (proj1 (proj2 (getStartBlock_resolution (NewIndexer defaultLookbackConfig)
      "ethereum" (nodeAt 5000 []) MemoryStorage.New 1 5000 _ _ _) _ _) _);
      first [apply Hr; simpl; lia | reflexivity | vm_compute; reflexivity].
  - refine (proj2 (proj2 (getStartBlock_resolution (NewIndexer defaultLookbackConfig)
      "ethereum" (nodeAt 700 []) MemoryStorage.New 1 700 _ _ _) _ _) _);
      first [apply Hr; simpl; lia | reflexivity | vm_compute; discriminate].
Defined.

(** ** The window generator *)

Lemma tiles_bounds (ranges : list blockRange) (start stop : Z) :
  tiles start ranges stop → start ≤ stop + 1.
Proof.
  revert start. induction ranges as [|r rest IH]; simpl; intros start Ht.
  - lia.
  - destruct Ht as (_ & Hle & Hrest). apply IH in Hrest. lia.
Qed.

(** Windows that tile [start, stop] cover each block of it. *)
Lemma tiles_cover (ranges : list blockRange) (start stop b : Z) :
  tiles start ranges stop → start ≤ b ≤ stop → ∃ r, r ∈ ranges ∧ covers r b.
Proof.
  revert start. induction ranges as [|r rest IH]; simpl; intros start Ht Hb.
  - lia.
  - destruct Ht as (Hfrom & Hle & Hrest).
    destruct (decide (b ≤ to r)) as [Hin|Hout].
    + exists r. split; [left | unfold covers; lia].
    + destruct (IH (to r + 1) Hrest) as (r' & Hr' & Hc); [lia|].
      exists r'. split; [right; exact Hr' | exact Hc].
Qed.

(** Every window of a tiling lies inside [start, stop] and is not empty. *)
Lemma tiles_within (ranges : list blockRange) (start stop : Z) (r : blockRange) :
  tiles start ranges stop → r ∈ ranges → start ≤ from r ∧ from r ≤ to r ∧ to r ≤ stop.
Proof.
  revert start. induction ranges as [|r0 rest IH]; simpl; intros start Ht Hr.
  - inversion Hr.
  - destruct Ht as (Hfrom & Hle & Hrest).
    apply elem_of_cons in Hr as [->|Hr].
    + apply tiles_bounds in Hrest. lia.
    + destruct (IH _ Hrest Hr) as (H1 & H2 & H3). lia.
Qed.

(** A later window of a tiling begins after an earlier one ends: the windows
    do not overlap. *)
Lemma tiles_disjoint (ranges : list blockRange) (start stop : Z)
    (i j : nat) (r1 r2 : blockRange) :
  tiles start ranges stop → (i < j)%nat →
  ranges !! i = Some r1 → ranges !! j = Some r2 → to r1 < from r2.
Proof.
  revert start i j. induction ranges as [|r0 rest IH]; simpl; intros start i j Ht Hij H1 H2.
  - discriminate.
  - destruct Ht as (Hfrom & Hle & Hrest).
    destruct j as [|j]; [lia|]. simpl in H2.
    destruct i as [|i]; simpl in H1.
    + injection H1 as ->.
      apply list_elem_of_lookup_2 in H2.
      destruct (tiles_within _ _ _ _ Hrest H2) as (Hge & _ & _). lia.
    + apply (IH (to r0 + 1) i j Hrest); [lia | assumption | assumption].
Qed.

(** For a batch size of at least 1 and block numbers that stay clear of the
    top of the uint64 range, the loop ends and its windows tile the blocks
    from the start block to [lastSent]. *)
Lemma sendWork_tiles (batchSize currentBlock : Z) :
  1 ≤ batchSize → currentBlock + batchSize < U64.modulus →
  ∀ (fuel : nat) (start : Z),
    0 ≤ start ≤ currentBlock →
    (Z.to_nat (currentBlock - start) < fuel)%nat →
    ∃ ranges, sendWork fuel start currentBlock batchSize = Some ranges ∧
              tiles start ranges (lastSent start currentBlock batchSize).
Proof.
  intros HB Htop. induction fuel as [|fuel IH]; intros start Hstart Hfuel; [lia|].
  simpl. destruct (decide (start < currentBlock)) as [Hlt|Hge].
  - assert (Hadd : U64.add start batchSize = start + batchSize)
      by (apply U64_add_no_carry; lia).
    rewrite Hadd.
    assert (Hsub : U64.sub (start + batchSize) 1 = start + batchSize - 1).
    { apply U64_sub_no_borrow; unfold U64.in_range; lia. }
    rewrite Hsub.
    destruct (decide (start + batchSize - 1 > currentBlock)) as [Hclip|Hfit].
    + (* the window is clipped to the end block *)
      rewrite (U64_add_no_carry currentBlock 1) by lia.
      destruct fuel as [|fuel]; [lia|].
      rewrite sendWork_nothing_to_do by lia. simpl.
      eexists. split; [reflexivity|]. simpl.
      unfold lastSent. rewrite Z.mod_small by lia.
      destruct (decide _); [lia|]. repeat split; lia.
    + rewrite (U64_add_no_carry (start + batchSize - 1) 1) by lia.
      replace (start + batchSize - 1 + 1) with (start + batchSize) by lia.
      destruct (decide (start + batchSize ≤ currentBlock)) as [Hmore|Hdone].
      * destruct (IH (start + batchSize)) as (rest & Hrest & Htiles); [lia | lia |].
        rewrite Hrest. simpl. eexists. split; [reflexivity|]. simpl.
        replace (start + batchSize - 1 + 1) with (start + batchSize) by lia.
        repeat split; [lia|].
        replace (lastSent start currentBlock batchSize)
          with (lastSent (start + batchSize) currentBlock batchSize); [exact Htiles|].
        unfold lastSent.
        replace (currentBlock - (start + batchSize))
          with (currentBlock - start + (-1) * batchSize) by lia.
        rewrite Z.mod_add by lia. reflexivity.
      * (* the window ends exactly at the end block *)
        assert (Heq : start + batchSize = currentBlock + 1) by lia.
        destruct fuel as [|fuel]; [lia|].
        rewrite sendWork_nothing_to_do by lia. simpl.
        eexists. split; [reflexivity|]. simpl.
        unfold lastSent.
        replace (currentBlock - start) with (batchSize - 1) by lia.
        rewrite Z.mod_small by lia.
        destruct (decide _); [lia|]. repeat split; lia.
  - assert (start = currentBlock) as -> by lia.
    eexists. split; [reflexivity|]. simpl.
    unfold lastSent. rewrite Z.sub_diag, Z.mod_0_l by lia.
    destruct (decide _); [lia | contradiction].
Qed.

(** The example of the partition property: from block 1 with the head at 25
    the windows are [1,10], [11,20], [21,25]. *)
Lemma sendWork_example :
  indexHistoricalEvents 4 (NewIndexer exampleConfig) (nodeAt 25 []) 1
  = Ret (Some [mkRange 1 10; mkRange 11 20; mkRange 21 25]).
Proof. vm_compute. reflexivity. Qed.

(** What the windows of a scan do cover: for a batch size of at least 1, they
    are contiguous, do not overlap, and cover the blocks from the start block
    to [lastSent], which is the end block unless the distance from the start
    block to the end block is a multiple of the batch size. *)
Lemma sendWork_partition (start currentBlock batchSize : Z) (fuel : nat) :
  1 ≤ batchSize → currentBlock + batchSize < U64.modulus →
  0 ≤ start < currentBlock →
  (Z.to_nat (currentBlock - start) < fuel)%nat →
  ∃ ranges,
    sendWork fuel start currentBlock batchSize = Some ranges ∧
    tiles start ranges (lastSent start currentBlock batchSize) ∧
    (∀ b, start ≤ b ≤ lastSent start currentBlock batchSize →
          ∃ r, r ∈ ranges ∧ covers r b) ∧
    (∀ i j r1 r2, (i < j)%nat → ranges !! i = Some r1 → ranges !! j = Some r2 →
                  to r1 < from r2).
Proof.
  intros HB Htop Hstart Hfuel.
  destruct (sendWork_tiles batchSize currentBlock HB Htop fuel start)
    as (ranges & Hrun & Htiles); [lia | exact Hfuel |].
  exists ranges. split; [exact Hrun|]. split; [exact Htiles|]. split.
  - intros b Hb. by apply (tiles_cover ranges start _ b Htiles).
  - intros i j r1 r2. by apply (tiles_disjoint ranges start _ i j r1 r2 Htiles).
Qed.

(** C3, where the code departs from it. From block 1 with the head at 21,
    no confirmations and batch size 10, the loop sends [1,10] and [11,20] and
    stops, because its test is [fromBlock < currentBlock]: block 21, the end
    block of the scan, is in no window. *)
Theorem sendWork_skips_end_block :
  indexHistoricalEvents 4 (NewIndexer exampleConfig) (nodeAt 21 []) 1
    = Ret (Some [mkRange 1 10; mkRange 11 20]) ∧
  effectiveEnd 21 0 = 21 ∧
  ∀ r, r ∈ [mkRange 1 10; mkRange 11 20] → ¬ covers r 21.
Proof.
  split; [vm_compute; reflexivity|]. split; [vm_compute; reflexivity|].
  intros r Hr. unfold covers.
  apply elem_of_cons in Hr as [->|Hr]; [simpl; lia|].
  apply list_elem_of_singleton in Hr as ->. simpl. lia.
Qed.

(** The same in general: whenever the end block is a positive multiple of the
    batch size away from the start block, the last window ends one block
    before it. *)
Lemma sendWork_multiple_stops_short (start batchSize k : Z) (fuel : nat) :
  1 ≤ batchSize → 1 ≤ k → 0 ≤ start →
  start + k * batchSize + batchSize < U64.modulus →
  (Z.to_nat (k * batchSize) < fuel)%nat →
  ∃ ranges,
    sendWork fuel start (start + k * batchSize) batchSize = Some ranges ∧
    tiles start ranges (start + k * batchSize - 1).
Proof.
  intros HB Hk Hs Htop Hfuel.
  destruct (sendWork_tiles batchSize (start + k * batchSize) HB Htop fuel start)
    as (ranges & Hrun & Htiles).
  - nia.
  - replace (start + k * batchSize - start) with (k * batchSize) by lia. exact Hfuel.
  - exists ranges. split; [exact Hrun|].
    unfold lastSent in Htiles.
    replace (start + k * batchSize - start) with (k * batchSize) in Htiles by lia.
    rewrite Z.mod_mul in Htiles by lia.
    destruct (decide (0 = 0)) as [_|Hn]; [exact Htiles | contradiction].
Qed.

(** With a batch size of 0 the loop sends the empty window
    [fromBlock, fromBlock - 1] again and again and does not end. *)
Lemma sendWork_zero_batch_never_ends (fuel : nat) (start currentBlock : Z) :
  0 < start < currentBlock → currentBlock < U64.modulus →
  sendWork fuel start currentBlock 0 = None.
Proof.
  intros Hs Htop. induction fuel as [|fuel IH]; [reflexivity|].
  simpl. destruct (decide (start < currentBlock)) as [_|Hn]; [|lia].
  rewrite (U64_add_no_carry start 0) by lia.
  rewrite Z.add_0_r.
  rewrite U64_sub_no_borrow by (unfold U64.in_range; lia).
  destruct (decide (start - 1 > currentBlock)) as [Hgt|_]; [lia|].
  rewrite (U64_add_no_carry (start - 1) 1) by lia.
  replace (start - 1 + 1) with start by lia.
  rewrite IH. reflexivity.
Qed.

(** ** The block checkpoint *)

Section CheckpointMonotone.
Context {St : Type} `{Storage St}.
Variable chain : string.
Hypothesis SaveBlock_monotone : ∀ (block : Block.t) (st : St),
  0 ≤ Block.Number block →
  lastIndexedBlock chain st ≤ lastIndexedBlock chain (SaveBlock block st).1.

Lemma saveBlocks_monotone (blocks : list Block.t) (st : St) :
  Forall (λ block, 0 ≤ Block.Number block) blocks →
  lastIndexedBlock chain st ≤ lastIndexedBlock chain (saveBlocks blocks st).
Proof.
  intros Hall. revert st.
  induction Hall as [|block blocks Hblock _ IH]; intros st; simpl.
  - reflexivity.
  - etransitivity; [apply (SaveBlock_monotone block st Hblock) | apply IH].
Qed.

Lemma saveBlocks_prefix_monotone (before after : list Block.t) (st : St) :
  Forall (λ block, 0 ≤ Block.Number block) after →
  lastIndexedBlock chain (saveBlocks before st)
  ≤ lastIndexedBlock chain (saveBlocks (before ++ after) st).
Proof.
  intros Hall. unfold saveBlocks at 2. rewrite foldl_app.
  by apply saveBlocks_monotone.
Qed.
End CheckpointMonotone.

Lemma MemoryStorage_SaveBlock_monotone (chain : string) (block : Block.t)
    (s : MemoryStorage.t) :
  lastIndexedBlock chain s ≤ lastIndexedBlock chain (SaveBlock block s).1.
Proof.
  unfold lastIndexedBlock. simpl.
  destruct (decide _) as [Hgt|_]; [|reflexivity].
  destruct (decide (Block.Chain block = chain)) as [<-|Hne].
  - rewrite lookup_insert_eq. simpl. lia.
  - rewrite lookup_insert_ne by done. reflexivity.
Qed.

Lemma PostgresStorage_GetLastIndexedBlock_max (chain : string) (s : PostgresStorage.t) :
  lastIndexedBlock chain s = maxOrZero (chainNumbers chain (PostgresStorage.indexed_blocks s)).
Proof.
  unfold lastIndexedBlock, chainNumbers. simpl.
  unfold PostgresStorage.GetLastIndexedBlock.
  destruct (_ <$> _); reflexivity.
Qed.

Lemma foldl_max_le (n : Z) (ns : list Z) : n ≤ foldl Z.max n ns.
Proof.
  revert n. induction ns as [|m ns IH]; intros n; simpl; [lia|].
  etransitivity; [|apply IH]. lia.
Qed.

Lemma maxOrZero_snoc (ns : list Z) (n : Z) :
  0 ≤ n → maxOrZero ns ≤ maxOrZero (ns ++ [n]).
Proof.
  intros Hn. destruct ns as [|m ns]; simpl; [exact Hn|].
  rewrite foldl_app. simpl. lia.
Qed.

(** An upsert leaves the block numbers of a chain as they are, or adds the
    new number at the end. *)
Lemma upsertBlock_numbers (chain : string) (r : PostgresStorage.BlockRow)
    (rows : list PostgresStorage.BlockRow) :
  chainNumbers chain (PostgresStorage.upsertBlock r rows) = chainNumbers chain rows ∨
  chainNumbers chain (PostgresStorage.upsertBlock r rows)
  = chainNumbers chain rows ++ [PostgresStorage.b_block_number r].
Proof.
  unfold chainNumbers. induction rows as [|r' rows IH]; simpl.
  - rewrite filter_cons. destruct (decide _); [right | left]; reflexivity.
  - unfold PostgresStorage.same_block. case_bool_decide as Hsame.
    + left. destruct Hsame as [Hc Hn]. rewrite !filter_cons. simpl.
      destruct (decide _); [|reflexivity]. rewrite !fmap_cons. reflexivity.
    + rewrite !filter_cons. destruct (decide (PostgresStorage.b_chain r' = chain)).
      * rewrite !fmap_cons. destruct IH as [-> | ->]; [left | right]; reflexivity.
      * exact IH.
Qed.

Lemma PostgresStorage_SaveBlock_monotone (chain : string) (block : Block.t)
    (s : PostgresStorage.t) :
  0 ≤ Block.Number block →
  lastIndexedBlock chain s ≤ lastIndexedBlock chain (SaveBlock block s).1.
Proof.
  intros Hnum. rewrite !PostgresStorage_GetLastIndexedBlock_max.
  simpl. unfold PostgresStorage.SaveBlock.
  destruct (PostgresStorage.blockRow block) as [r| |] eqn:Hrow; simpl; [|reflexivity..].
  assert (Hr : PostgresStorage.b_block_number r = Block.Number block).
  { unfold PostgresStorage.blockRow in Hrow.
    destruct (PostgresStorage.varchar 50 _); try discriminate.
    unfold PostgresStorage.bigint in Hrow.
    destruct (decide _); try discriminate. simpl in Hrow.
    destruct (PostgresStorage.varchar 66 _); try discriminate.
    simpl in Hrow. injection Hrow as <-. reflexivity. }
  destruct (upsertBlock_numbers chain r (PostgresStorage.indexed_blocks s)) as [-> | ->].
  - reflexivity.
  - apply maxOrZero_snoc. lia.
Qed.

(** C6. Over any sequence of [SaveBlock] calls, with block numbers in any
    order, the value that [GetLastIndexedBlock] returns for a chain after a
    longer part of the sequence is not below the value after a shorter part:
    it never decreases. This holds for the in-memory store and for the
    PostgreSQL store. *)
Theorem checkpoint_never_decreases (chain : string) (before after : list Block.t) :
  Forall (λ block, U64.in_range (Block.Number block)) after →
  (∀ s : MemoryStorage.t,
     lastIndexedBlock chain (saveBlocks before s)
     ≤ lastIndexedBlock chain (saveBlocks (before ++ after) s)) ∧
  (∀ s : PostgresStorage.t,
     lastIndexedBlock chain (saveBlocks before s)
     ≤ lastIndexedBlock chain (saveBlocks (before ++ after) s)).
Proof.
  intros Hrange.
  assert (Hpos : Forall (λ block, 0 ≤ Block.Number block) after).
  { eapply Forall_impl; [exact Hrange|]. intros b Hb. apply Hb. }
  split; intros s; apply saveBlocks_prefix_monotone; try exact Hpos.
  - intros block st _. apply MemoryStorage_SaveBlock_monotone.
  - intros block st Hb. by apply PostgresStorage_SaveBlock_monotone.
Qed.

Lemma checkpoint_never_decreases_witness :
  (lastIndexedBlock "ethereum" (saveBlocks completedFirst MemoryStorage.New)
   ≤ lastIndexedBlock "ethereum"
       (saveBlocks (completedFirst ++ completedLater) MemoryStorage.New)) ∧
  (lastIndexedBlock "ethereum" (saveBlocks completedFirst PostgresStorage.New)
   ≤ lastIndexedBlock "ethereum"
       (saveBlocks (completedFirst ++ completedLater) PostgresStorage.New)).
Proof.
  destruct (checkpoint_never_decreases "ethereum" completedFirst completedLater)
    as [Hmem Hpg].
  - repeat constructor; simpl; lia.
  - split; [apply Hmem | apply Hpg].
Defined.

(** The values behind the witness: 20 after the first two markers, 40 after
    all four, in both stores. *)
Lemma checkpoint_out_of_order_values :
  lastIndexedBlock "ethereum" (saveBlocks completedFirst MemoryStorage.New) = 20 ∧
  lastIndexedBlock "ethereum"
    (saveBlocks (completedFirst ++ completedLater) MemoryStorage.New) = 40 ∧
  lastIndexedBlock "ethereum" (saveBlocks completedFirst PostgresStorage.New) = 20 ∧
  lastIndexedBlock "ethereum"
    (saveBlocks (completedFirst ++ completedLater) PostgresStorage.New) = 40.
Proof. vm_compute. repeat split; reflexivity. Qed.

(** ** Saving events *)

Lemma appendEvent_stored (m : gmap string (list Event.t)) (event : Event.t) :
  default [] (MemoryStorage.appendEvent m event !! Event.Chain event)
  = default [] (m !! Event.Chain event) ++ [event].
Proof. unfold MemoryStorage.appendEvent. by rewrite lookup_insert_eq. Qed.

(** [MemoryStorage.SaveEvents] appends: saving one event adds one record to
    its chain, whether or not a record with the same key is stored already. *)
Lemma MemoryStorage_SaveEvents_appends (event : Event.t) (s : MemoryStorage.t) :
  storedEvents (Event.Chain event) (SaveEvents [event] s).1
  = storedEvents (Event.Chain event) s ++ [event].
Proof. unfold storedEvents. simpl. apply appendEvent_stored. Qed.

(** Saving the same event twice in the in-memory store leaves two records
    with the same identity key. *)
Lemma MemoryStorage_SaveEvents_twice (event : Event.t) (s : MemoryStorage.t) :
  storedEvents (Event.Chain event) (SaveEvents [event] (SaveEvents [event] s).1).1
  = storedEvents (Event.Chain event) s ++ [event; event].
Proof.
  rewrite !MemoryStorage_SaveEvents_appends, <- app_assoc. reflexivity.
Qed.

(** C7, where the code departs from it. In the in-memory store, saving the
    batch [[swapEvent]] once leaves one record and saving it twice leaves two
    records with the same (chain, transaction hash, log index): [GetEvents]
    returns the event twice. *)
Theorem MemoryStorage_SaveEvents_not_idempotent :
  let once := (SaveEvents [swapEvent] MemoryStorage.New).1 in
  let twice := (SaveEvents [swapEvent] once).1 in
  MemoryStorage.GetEvents "ethereum" 0 100 once = ([swapEvent], None) ∧
  MemoryStorage.GetEvents "ethereum" 0 100 twice = ([swapEvent; swapEvent], None) ∧
  ¬ NoDup (Event.key <$> storedEvents "ethereum" twice).
Proof.
  assert (H1 : storedEvents "ethereum" (SaveEvents [swapEvent] MemoryStorage.New).1
               = [swapEvent])
    by apply (MemoryStorage_SaveEvents_appends swapEvent MemoryStorage.New).
  assert (H2 : storedEvents "ethereum"
                 (SaveEvents [swapEvent] (SaveEvents [swapEvent] MemoryStorage.New).1).1
               = [swapEvent; swapEvent])
    by apply (MemoryStorage_SaveEvents_twice swapEvent MemoryStorage.New).
  cbv zeta. unfold MemoryStorage.GetEvents. fold (storedEvents "ethereum").
  unfold storedEvents in *. rewrite H1, H2.
  split; [|split].
  - rewrite filter_cons_True; [reflexivity | simpl; lia].
  - rewrite !filter_cons_True; [reflexivity | simpl; lia..].
  - simpl. intros Hnd. apply NoDup_cons in Hnd as [Hnotin _].
    apply Hnotin. left.
Qed.

(** The PostgreSQL store does what the in-memory store misses: a batch saved
    again changes nothing, and no two rows share a key. *)

Lemma insertEvent_keys (r : PostgresStorage.EventRow) (rows : list PostgresStorage.EventRow) :
  PostgresStorage.row_key r ∈ rowKeys (PostgresStorage.insertEvent r rows) ∧
  (∀ k, k ∈ rowKeys rows → k ∈ rowKeys (PostgresStorage.insertEvent r rows)).
Proof.
  unfold PostgresStorage.insertEvent, rowKeys. case_bool_decide as Hin.
  - split; [exact Hin | auto].
  - rewrite fmap_app. simpl. split.
    + apply elem_of_app. right. left.
    + intros k Hk. apply elem_of_app. left. exact Hk.
Qed.

Lemma insertEvent_present (r : PostgresStorage.EventRow) (rows : list PostgresStorage.EventRow) :
  PostgresStorage.row_key r ∈ rowKeys rows → PostgresStorage.insertEvent r rows = rows.
Proof.
  intros Hin. unfold PostgresStorage.insertEvent, rowKeys in *.
  case_bool_decide; [reflexivity | contradiction].
Qed.

Lemma insertEvent_NoDup (r : PostgresStorage.EventRow) (rows : list PostgresStorage.EventRow) :
  NoDup (rowKeys rows) → NoDup (rowKeys (PostgresStorage.insertEvent r rows)).
Proof.
  intros Hnd. unfold PostgresStorage.insertEvent, rowKeys in *.
  case_bool_decide as Hin; [exact Hnd|].
  rewrite fmap_app. simpl. apply NoDup_app. split; [exact Hnd|]. split.
  - intros k Hk Hk'. apply list_elem_of_singleton in Hk'. subst k. contradiction.
  - apply NoDup_singleton.
Qed.

(** After a batch went through, the key of each of its events is stored. *)
Lemma execAll_keys (evs : list Event.t) :
  ∀ rows rows', PostgresStorage.execAll evs rows = Ret rows' →
    (∀ k, k ∈ rowKeys rows → k ∈ rowKeys rows') ∧
    Forall (λ event, ∃ r, PostgresStorage.eventRow event = Ret r ∧
                          PostgresStorage.row_key r ∈ rowKeys rows') evs.
Proof.
  induction evs as [|event evs IH]; simpl; intros rows rows' Hrun.
  - injection Hrun as <-. split; [auto | constructor].
  - destruct (PostgresStorage.eventRow event) as [r| |] eqn:Hrow; try discriminate.
    simpl in Hrun. destruct (IH _ _ Hrun) as [Hkeep Hall].
    destruct (insertEvent_keys r rows) as [Hnew Hold].
    split; [intros k Hk; auto|].
    constructor; [|exact Hall]. exists r. split; [exact Hrow | auto].
Qed.

Lemma execAll_present (evs : list Event.t) (rows : list PostgresStorage.EventRow) :
  Forall (λ event, ∃ r, PostgresStorage.eventRow event = Ret r ∧
                        PostgresStorage.row_key r ∈ rowKeys rows) evs →
  PostgresStorage.execAll evs rows = Ret rows.
Proof.
  induction 1 as [|event evs (r & Hrow & Hin) _ IH]; simpl; [reflexivity|].
  rewrite Hrow. simpl. rewrite (insertEvent_present _ _ Hin). exact IH.
Qed.

Lemma execAll_NoDup (evs : list Event.t) :
  ∀ rows rows', PostgresStorage.execAll evs rows = Ret rows' →
    NoDup (rowKeys rows) → NoDup (rowKeys rows').
Proof.
  induction evs as [|event evs IH]; simpl; intros rows rows' Hrun Hnd.
  - injection Hrun as <-. exact Hnd.
  - destruct (PostgresStorage.eventRow event) as [r| |]; try discriminate.
    simpl in Hrun. eapply IH; [exact Hrun|]. by apply insertEvent_NoDup.
Qed.

Lemma PostgresStorage_SaveEvents_idempotent (evs : list Event.t)
    (s s1 : PostgresStorage.t) :
  SaveEvents evs s = (s1, None) →
  SaveEvents evs s1 = (s1, None) ∧
  (NoDup (rowKeys (PostgresStorage.events s)) →
   NoDup (rowKeys (PostgresStorage.events s1))).
Proof.
  simpl. unfold PostgresStorage.SaveEvents.
  destruct (decide (length evs = 0)%nat) as [Hnil|Hcons].
  - intros Hrun. injection Hrun as <-. auto.
  - destruct (PostgresStorage.execAll evs (PostgresStorage.events s)) as [rows| |] eqn:Hrun;
      intros Hs; try discriminate.
    injection Hs as <-. simpl. split.
    + rewrite execAll_present; [destruct s; reflexivity|].
      by destruct (execAll_keys _ _ _ Hrun).
    + by apply (execAll_NoDup evs _ _ Hrun).
Qed.

(** ** Dispatch *)

Lemma processLog_signatures_declined (processor : EventProcessor) (chain : string)
    (log : types.Log) (sigs : list common.Hash) :
  Process processor log = Ret None →
  processLog_signatures processor chain log sigs = Continue.
Proof.
  intros Hnil. induction sigs as [|sig sigs IH]; simpl; [reflexivity|].
  destruct (decide _); [rewrite Hnil|]; exact IH.
Qed.

Lemma processLog_signatures_unclaimed (processor : EventProcessor) (chain : string)
    (log : types.Log) (sigs : list common.Hash) :
  (∀ sig, sig ∈ sigs → head (types.Topics log) ≠ Some sig) →
  processLog_signatures processor chain log sigs = Continue.
Proof.
  induction sigs as [|sig sigs IH]; simpl; intros Hno; [reflexivity|].
  destruct (decide _) as [[_ Hhead]|_].
  - exfalso. apply (Hno sig); [left | exact Hhead].
  - apply IH. intros sig' Hin. apply Hno. right. exact Hin.
Qed.

Lemma processLog_signatures_claimed (processor : EventProcessor) (chain : string)
    (log : types.Log) (sigs : list common.Hash) (sig : common.Hash) :
  head (types.Topics log) = Some sig → sig ∈ sigs →
  Process processor log ≠ Ret None →
  match processLog_signatures processor chain log sigs with
  | Continue => False
  | Return r => settle chain (Process processor log) = Ret r
  | Crash m => settle chain (Process processor log) = Panic m
  end.
Proof.
  intros Hhead Hin Hanswer. induction sigs as [|sig' sigs IH]; simpl.
  - inversion Hin.
  - destruct (decide _) as [[_ Hsame]|Hother].
    + destruct (Process processor log) as [[event|]| |]; simpl; try reflexivity.
      contradiction.
    + apply IH. apply elem_of_cons in Hin as [->|Hin]; [|exact Hin].
      exfalso. apply Hother. split; [|exact Hhead].
      destruct (types.Topics log); [discriminate | simpl; lia].
Qed.

(** The log goes to the first processor of the traversal that claims it and
    does not answer [nil, nil]. *)
Lemma processLog_first_claimant (pre post : list (string * EventProcessor))
    (name : string) (processor : EventProcessor) (chain : string) (log : types.Log) :
  Forall (λ p, ¬ claimsLog p.2 log ∨ Process p.2 log = Ret None) pre →
  claimsLog processor log →
  Process processor log ≠ Ret None →
  processLog (pre ++ (name, processor) :: post) chain log
  = settle chain (Process processor log).
Proof.
  intros Hpre (sig & Hhead & Hin) Hanswer.
  induction Hpre as [|[n p] pre Hp _ IH]; simpl.
  - pose proof (processLog_signatures_claimed processor chain log _ sig
                  Hhead Hin Hanswer) as Hrun.
    destruct (processLog_signatures _ _ _ _); [contradiction | |]; by rewrite Hrun.
  - rewrite <- IH. simpl in Hp. destruct Hp as [Hunclaimed|Hnil].
    + rewrite processLog_signatures_unclaimed; [reflexivity|].
      intros sig' Hin' Hhead'. apply Hunclaimed. exists sig'. split; assumption.
    + rewrite processLog_signatures_declined by exact Hnil. reflexivity.
Qed.

(** A log that no processor of the traversal claims yields no event. *)
Lemma processLog_unclaimed (order : list (string * EventProcessor)) (chain : string)
    (log : types.Log) :
  Forall (λ p, ¬ claimsLog p.2 log ∨ Process p.2 log = Ret None) order →
  processLog order chain log = Ret None.
Proof.
  induction 1 as [|[n p] order Hp _ IH]; simpl; [reflexivity|].
  simpl in Hp. destruct Hp as [Hunclaimed|Hnil].
  - rewrite processLog_signatures_unclaimed; [exact IH|].
    intros sig' Hin' Hhead'. apply Hunclaimed. exists sig'. split; assumption.
  - rewrite processLog_signatures_declined by exact Hnil. exact IH.
Qed.

Lemma range_order_lookup {V} (m : gmap string V) (order : list (string * V))
    (name : string) (v : V) :
  range_order m order → (name, v) ∈ order → m !! name = Some v.
Proof.
  unfold range_order. intros Hperm Hin. rewrite Hperm in Hin.
  by apply elem_of_map_to_list in Hin.
Qed.

(** C1, as the code has it. [processLog] ranges over the processor map,
    which is keyed by protocol name and has no fixed traversal order. In a
    traversal where decoder D1 comes before every other decoder that claims
    the topic S of the log (decoders that answer [nil, nil] apart), and D1
    answers with an event or an error, the log is routed to D1: the result is
    D1's event with the chain set, or no event for an error, whatever decoders
    come after D1. D1 is then the decoder registered under its name. *)
Theorem dispatch_first_in_traversal (idx : Indexer)
    (pre post : list (string * EventProcessor)) (name : string) (D1 : EventProcessor)
    (chain : string) (log : types.Log) (S : common.Hash) :
  range_order (processors idx) (pre ++ (name, D1) :: post) →
  head (types.Topics log) = Some S →
  S ∈ GetEventSignatures D1 →
  Forall (λ p, S ∉ GetEventSignatures p.2 ∨ Process p.2 log = Ret None) pre →
  Process D1 log ≠ Ret None →
  processLog (pre ++ (name, D1) :: post) chain log = settle chain (Process D1 log) ∧
  processors idx !! name = Some D1.
Proof.
  intros Horder Hhead Hclaims Hpre Hanswer. split.
  - apply processLog_first_claimant; [|by exists S | exact Hanswer].
    eapply Forall_impl; [exact Hpre|]. intros p [Hno|Hnil]; [left | by right].
    intros (sig & Hhead' & Hin). rewrite Hhead in Hhead'. injection Hhead' as <-.
    contradiction.
  - apply (range_order_lookup _ _ _ _ Horder). apply elem_of_app. right. left.
Qed.

Lemma registry12_orders :
  range_order (processors registry12) [("erc20-a", D1); ("erc20-b", D2)] ∧
  range_order (processors registry12) [("erc20-b", D2); ("erc20-a", D1)].
Proof.
  assert (Hba : range_order (processors registry12) [("erc20-b", D2); ("erc20-a", D1)]).
  { unfold range_order, registry12, RegisterProcessor. simpl.
    rewrite map_to_list_insert by (by rewrite lookup_insert_ne).
    rewrite map_to_list_insert by apply lookup_empty.
    rewrite map_to_list_empty. reflexivity. }
  split; [|exact Hba].
  unfold range_order in *. rewrite <- Hba. apply Permutation_swap.
Qed.

Lemma dispatch_first_in_traversal_witness :
  processLog [("erc20-a", D1); ("erc20-b", D2)] "ethereum" transferLog
    = settle "ethereum" (Process D1 transferLog) ∧
  processors registry12 !! "erc20-a" = Some D1.
Proof.
  apply (dispatch_first_in_traversal registry12 [] [("erc20-b", D2)] "erc20-a" D1
           "ethereum" transferLog GenericERC20Processor.TransferSig).
  - exact (proj1 registry12_orders).
  - reflexivity.
  - simpl. left.
  - constructor.
  - vm_compute. discriminate.
Defined.

(** C1 as stated fails. D1 and D2 are registered in that order and both claim
    the Transfer signature, which is topic 0 of [transferLog]. Both
    arrangements of the two entries are traversal orders of the processor
    map; under the one that visits D2 first the log is routed to D2, under the
    other to D1, so two runs on the same registry can differ. *)
Lemma dispatch_not_in_registration_order :
  GenericERC20Processor.TransferSig ∈ GetEventSignatures D1 ∧
  GenericERC20Processor.TransferSig ∈ GetEventSignatures D2 ∧
  head (types.Topics transferLog) = Some GenericERC20Processor.TransferSig ∧
  range_order (processors registry12) [("erc20-b", D2); ("erc20-a", D1)] ∧
  routedTo (processLog [("erc20-b", D2); ("erc20-a", D1)] "ethereum" transferLog)
    = Some "erc20-b" ∧
  range_order (processors registry12) [("erc20-a", D1); ("erc20-b", D2)] ∧
  routedTo (processLog [("erc20-a", D1); ("erc20-b", D2)] "ethereum" transferLog)
    = Some "erc20-a".
Proof.
  split; [simpl; left|]. split; [simpl; left|]. split; [reflexivity|].
  split; [exact (proj2 registry12_orders)|]. split; [vm_compute; reflexivity|].
  split; [exact (proj1 registry12_orders) | vm_compute; reflexivity].
Qed.

(** Registering a second decoder under the name of the first replaces it:
    the first never sees a log again. *)
Lemma RegisterProcessor_same_name_replaces (idx : Indexer) (P1 P2 : EventProcessor) :
  GetProtocolName P1 = GetProtocolName P2 →
  processors (RegisterProcessor P2 (RegisterProcessor P1 idx))
  = processors (RegisterProcessor P2 idx).
Proof.
  intros Hname. unfold RegisterProcessor. simpl. rewrite Hname.
  apply insert_insert_eq.
Qed.

(** ** Malformed payloads *)

(** A log that [processLog] drops does not stop the batch: the loop goes on
    with the next log and the events collected so far. *)
Lemma decodeLogs_skips (orders : nat → list (string * EventProcessor)) (chain : string)
    (i : nat) (log : types.Log) (rest : list types.Log) (events : list Event.t) :
  processLog (orders i) chain log = Ret None →
  decodeLogs orders chain i (log :: rest) events
  = decodeLogs orders chain (S i) rest events.
Proof. intros Hskip. simpl. rewrite Hskip. reflexivity. Qed.

(** The Uniswap decoders test the length of the payload: a Swap log with a
    short payload is an error, and [processLog] drops the log. *)
Lemma uniswap_short_swap_is_dropped (p : UniswapV2Processor.t)
    (pre post : list (string * EventProcessor)) (name chain : string) (log : types.Log) :
  head (types.Topics log) = Some UniswapV2Processor.SwapSig →
  (length (types.Data log) < 128)%nat →
  Forall (λ q, ¬ claimsLog q.2 log ∨ Process q.2 log = Ret None) pre →
  processLog (pre ++ (name, UniswapV2Processor.processor p) :: post) chain log = Ret None.
Proof.
  intros Hhead Hshort Hpre.
  assert (Herr : Process (UniswapV2Processor.processor p) log = Err "invalid swap data").
  { simpl. rewrite (uniswap_Process_swap _ _ Hhead). by apply processSwap_short_data. }
  rewrite processLog_first_claimant; [by rewrite Herr | exact Hpre | | by rewrite Herr].
  exists UniswapV2Processor.SwapSig. split; [exact Hhead | simpl; left].
Qed.

(** The Uniswap decoders do not test the number of topics: a Swap log with a
    full payload and fewer than two topics makes [log.Topics[1]] panic. *)
Lemma uniswap_swap_missing_topics_panics (p : UniswapV2Processor.t) (log : types.Log) :
  head (types.Topics log) = Some UniswapV2Processor.SwapSig →
  (128 ≤ length (types.Data log))%nat →
  (length (types.Topics log) ≤ 1)%nat →
  Process (UniswapV2Processor.processor p) log = Panic index_panic.
Proof.
  intros Hhead Hdata Htopics. simpl. rewrite (uniswap_Process_swap _ _ Hhead).
  unfold UniswapV2Processor.processSwap.
  destruct (decide _) as [Hshort|_]; [lia|].
  rewrite (word_in_bounds _ 0), (word_in_bounds _ 1),
    (word_in_bounds _ 2), (word_in_bounds _ 3) by lia.
  rewrite (topicAddress_missing log 1) by exact Htopics. reflexivity.
Qed.

(** The Aave decoders test the number of topics only: a Supply log with four
    topics and fewer than 32 bytes of data makes [log.Data[0:32]] panic. *)
Lemma aave_supply_short_data_panics (p : AaveV3Processor.t) (log : types.Log) :
  head (types.Topics log) = Some AaveV3Processor.SupplySig →
  (4 ≤ length (types.Topics log))%nat →
  (length (types.Data log) < 32)%nat →
  Process (AaveV3Processor.processor p) log = Panic slice_panic.
Proof.
  intros Hhead Htopics Hdata. simpl. unfold AaveV3Processor.Process.
  destruct (types.Topics log) as [|topic0 rest] eqn:Htop; [discriminate|].
  simpl in Hhead. injection Hhead as ->.
  destruct (decide _) as [_|Hne]; [|contradiction].
  unfold AaveV3Processor.processSupply. rewrite Htop.
  destruct (decide _) as [Hfew|_]; [simpl in *; lia|].
  unfold word. rewrite go_subslice_out_of_bounds by lia. reflexivity.
Qed.

(** A panic in a decoder goes through [processBatch] before anything is
    written. *)
Lemma processBatch_decoder_panic {St} `{Storage St} (idx : Indexer) (rg : Ranging)
    (now : Z) (chain : string) (client : blockchain.Client) (from to : Z) (st : St)
    (logs : list types.Log) (m : string) :
  signatures rg ≠ [] →
  blockchain.GetLogs client
    (blockchain.mkEventFilter (Some (int64 from)) (Some (int64 to)) [] [signatures rg])
    = Ret logs →
  decodeLogs (orders rg) chain 0 logs [] = Panic m →
  processBatch idx rg now chain client from to st = (st, Panic m).
Proof.
  intros Hsigs Hlogs Hpanic. unfold processBatch.
  destruct (decide _) as [Hnil|_].
  - destruct (signatures rg); [contradiction | discriminate].
  - rewrite Hlogs, Hpanic. reflexivity.
Qed.

Lemma mainRegistry_orders :
  range_order (processors mainRegistry) uniswapFirst ∧
  range_order (processors mainRegistry) aaveFirst.
Proof.
  assert (Haave : range_order (processors mainRegistry) aaveFirst).
  { unfold range_order, mainRegistry, RegisterProcessor. simpl.
    rewrite map_to_list_insert by (by rewrite lookup_insert_ne).
    rewrite map_to_list_insert by apply lookup_empty.
    rewrite map_to_list_empty. reflexivity. }
  split; [|exact Haave].
  unfold range_order in *. rewrite <- Haave. apply Permutation_swap.
Qed.

Lemma mainRanging_valid : valid_ranging mainRegistry mainRanging.
Proof.
  split.
  - exists uniswapFirst. split; [exact (proj1 mainRegistry_orders) | reflexivity].
  - intros i. exact (proj1 mainRegistry_orders).
Qed.

(** C8, where the code departs from it. The Supply log with empty data is
    claimed by the Aave processor; decoding it does not return an error but
    panics, in both traversal orders of the registry, and the panic goes
    through [processBatch] and ends the worker: the remaining logs and
    windows are not processed and nothing is stored. *)
Theorem aave_short_data_crashes_worker :
  claimsLog (AaveV3Processor.processor aave) supplyLogNoData ∧
  Process (AaveV3Processor.processor aave) supplyLogNoData = Panic slice_panic ∧
  processLog uniswapFirst "ethereum" supplyLogNoData = Panic slice_panic ∧
  processLog aaveFirst "ethereum" supplyLogNoData = Panic slice_panic ∧
  worker mainRegistry (λ _, mainRanging) (λ _, 0) "ethereum"
    (nodeAt 100 [supplyLogNoData; swapLog]) 0 [mkRange 1 10; mkRange 11 20]
    MemoryStorage.New
  = (MemoryStorage.New, Panic slice_panic).
Proof.
  split; [exists AaveV3Processor.SupplySig; split; [reflexivity | simpl; left]|].
  split; [apply aave_supply_short_data_panics; [reflexivity | simpl; lia | simpl; lia]|].
  split; [vm_compute; reflexivity|]. split; vm_compute; reflexivity.
Qed.

(** A Swap log with a short payload is dropped, and the batch goes on and
    decodes the well-formed log that follows it. *)
Lemma worker_skips_short_swap :
  let shortSwap := types.mkLog (address_of_last_byte "001")
                     [UniswapV2Processor.SwapSig] [] 7 (hash_of_byte "009")
                     (hash_of_byte "008") 2 in
  processLog uniswapFirst "ethereum" shortSwap = Ret None ∧
  decodeLogs (λ _, uniswapFirst) "ethereum" 0 [shortSwap; swapLog] []
  = Ret [swapEvent].
Proof. vm_compute. split; reflexivity. Qed.

(** ** The order of the storage calls of a batch *)

(** Recording the calls does not change what [processBatch] does. *)
Lemma processBatch_recorded {St} `{Storage St} (idx : Indexer) (rg : Ranging) (now : Z)
    (chain : string) (client : blockchain.Client) (from to : Z) (st : St)
    (calls : list StorageCall) :
  let plain := processBatch idx rg now chain client from to st in
  let recorded := processBatch idx rg now chain client from to (st, calls) in
  recorded.1.1 = plain.1 ∧ recorded.2 = plain.2.
Proof.
  cbv zeta. unfold processBatch.
  destruct (decide _); [split; reflexivity|].
  destruct (blockchain.GetLogs _ _) as [logs| |]; [|split; reflexivity..].
  destruct (decodeLogs _ _ _ _ _) as [events| |]; [|split; reflexivity..].
  destruct (decide _); simpl.
  - destruct (SaveEvents events st) as [st1 [e|]]; simpl; [split; reflexivity|].
    destruct (SaveBlock _ st1) as [st2 [e|]]; split; reflexivity.
  - destruct (SaveBlock _ st) as [st2 [e|]]; split; reflexivity.
Qed.

(** C2. In [processBatch], when the window has decoded events and
    [SaveEvents] returns an error, the function returns that error, the only
    storage call it has made is that [SaveEvents], and the store is as
    [SaveEvents] left it: [SaveBlock] is not called and the checkpoint is not
    advanced. *)
Theorem processBatch_no_checkpoint_on_save_error {St} `{Storage St}
    (idx : Indexer) (rg : Ranging) (now : Z) (chain : string)
    (client : blockchain.Client) (from to : Z) (st st1 : St)
    (logs : list types.Log) (events : list Event.t) (e : string) :
  signatures rg ≠ [] →
  blockchain.GetLogs client
    (blockchain.mkEventFilter (Some (int64 from)) (Some (int64 to)) [] [signatures rg])
    = Ret logs →
  decodeLogs (orders rg) chain 0 logs [] = Ret events →
  events ≠ [] →
  SaveEvents events st = (st1, Some e) →
  processBatch idx rg now chain client from to (st, [])
  = ((st1, [CallSaveEvents events]), Err ("failed to save events: " +:+ e)).
Proof.
  intros Hsigs Hlogs Hdecode Hevents Hsave. unfold processBatch.
  destruct (decide _) as [Hnil|_].
  { destruct (signatures rg); [contradiction | discriminate]. }
  rewrite Hlogs, Hdecode.
  destruct (decide _) as [_|Hempty].
  - simpl. rewrite Hsave. reflexivity.
  - destruct events; [contradiction | simpl in Hempty; lia].
Qed.

(** When [SaveEvents] succeeds, or there is no event to save, the block
    marker of the end block of the window is saved next. *)
Lemma processBatch_checkpoint_after_events {St} `{Storage St}
    (idx : Indexer) (rg : Ranging) (now : Z) (chain : string)
    (client : blockchain.Client) (from to : Z) (st : St)
    (logs : list types.Log) (events : list Event.t) :
  signatures rg ≠ [] →
  blockchain.GetLogs client
    (blockchain.mkEventFilter (Some (int64 from)) (Some (int64 to)) [] [signatures rg])
    = Ret logs →
  decodeLogs (orders rg) chain 0 logs [] = Ret events →
  (SaveEvents events st).2 = None →
  (processBatch idx rg now chain client from to (st, [])).1.2
  = (if decide (0 < length events)%nat then [CallSaveEvents events] else [])
    ++ [CallSaveBlock (Block.mk 0 chain to "" now)].
Proof.
  intros Hsigs Hlogs Hdecode Hsave. unfold processBatch.
  destruct (decide _) as [Hnil|_].
  { destruct (signatures rg); [contradiction | discriminate]. }
  rewrite Hlogs, Hdecode.
  destruct (decide _) as [Hsome|Hempty]; simpl.
  - destruct (SaveEvents events st) as [st1 err]. simpl in Hsave. subst err.
    simpl. destruct (SaveBlock (Block.mk 0 chain to "" now) st1) as [st2 [e|]];
      reflexivity.
  - destruct (SaveBlock (Block.mk 0 chain to "" now) st) as [st2 [e|]]; reflexivity.
Qed.

(** The storage calls of a run of [processBatch], whatever happens in it:
    none; a failed [SaveEvents] alone; the block marker alone, when no event
    was decoded; or a successful [SaveEvents] followed by the block marker.
    [SaveBlock] never follows a failed [SaveEvents]. *)
Lemma processBatch_calls_shape {St} `{Storage St} (idx : Indexer) (rg : Ranging)
    (now : Z) (chain : string) (client : blockchain.Client) (from to : Z) (st : St) :
  let calls := (processBatch idx rg now chain client from to (st, [])).1.2 in
  let block := Block.mk 0 chain to "" now in
  calls = [] ∨
  (∃ evs, calls = [CallSaveEvents evs] ∧ (SaveEvents evs st).2 ≠ None) ∨
  calls = [CallSaveBlock block] ∨
  (∃ evs, calls = [CallSaveEvents evs; CallSaveBlock block] ∧
          (SaveEvents evs st).2 = None).
Proof.
  cbv zeta. unfold processBatch.
  destruct (decide _); [by left|].
  destruct (blockchain.GetLogs _ _) as [logs| |]; [|by left..].
  destruct (decodeLogs _ _ _ _ _) as [events| |]; [|by left..].
  destruct (decide _); simpl.
  - destruct (SaveEvents events st) as [st1 [e|]] eqn:Hsave; simpl.
    + right. left. exists events. rewrite Hsave. by split.
    + right. right. right. exists events. rewrite Hsave. split; [|reflexivity].
      destruct (SaveBlock (Block.mk 0 chain to "" now) st1) as [st2 [e|]]; reflexivity.
  - right. right. left.
    destruct (SaveBlock (Block.mk 0 chain to "" now) st) as [st2 [e|]]; reflexivity.
Qed.

Lemma processBatch_no_checkpoint_on_save_error_witness :
  ∃ events e,
    processBatch mainRegistry mainRanging 0 longChainName (nodeAt 100 [swapLog]) 1 10
      (PostgresStorage.New, [])
    = ((PostgresStorage.New, [CallSaveEvents events]),
       Err ("failed to save events: " +:+ e)) ∧
    lastIndexedBlock longChainName PostgresStorage.New = 0.
Proof.
  eexists _, _. split; [|reflexivity].
  apply (processBatch_no_checkpoint_on_save_error mainRegistry mainRanging 0
           longChainName (nodeAt 100 [swapLog]) 1 10
           PostgresStorage.New PostgresStorage.New [swapLog]).
  - vm_compute. discriminate.
  - reflexivity.
  - vm_compute. reflexivity.
  - discriminate.
  - vm_compute. reflexivity.
Defined.

(* ===================================================================== *)
(** * Further properties of the package *)
(* ===================================================================== *)

(** ** Hex text of hashes and addresses *)

Lemma byte_hex_digits (b : byte) :
  common.hex_value (common.hex_digit (byte_to_Z b / 16)) = Some (byte_to_Z b / 16) ∧
  common.hex_value (common.hex_digit (byte_to_Z b mod 16)) = Some (byte_to_Z b mod 16) ∧
  byte_of_Z (byte_to_Z b / 16 * 16 + byte_to_Z b mod 16) = b.
Proof. destruct b; vm_compute; repeat split; reflexivity. Qed.

(** An upper-case hex letter has the value of the lower-case one. *)
Lemma byte_hex_digits_upper (b : byte) :
  (Z.of_N (Ascii.N_of_ascii "9") < Z.of_N (Ascii.N_of_ascii (common.hex_digit (byte_to_Z b / 16))) →
   common.hex_value (common.upper (common.hex_digit (byte_to_Z b / 16)))
   = Some (byte_to_Z b / 16)) ∧
  (Z.of_N (Ascii.N_of_ascii "9") < Z.of_N (Ascii.N_of_ascii (common.hex_digit (byte_to_Z b mod 16))) →
   common.hex_value (common.upper (common.hex_digit (byte_to_Z b mod 16)))
   = Some (byte_to_Z b mod 16)).
Proof.
  destruct b; vm_compute; split; intros H; first [reflexivity | discriminate H].
Qed.

Lemma hex_encode_length (bs : list byte) :
  String.length (common.hex_encode bs) = (2 * length bs)%nat.
Proof. induction bs as [|b bs IH]; simpl; [reflexivity | rewrite IH; lia]. Qed.

Lemma substring_whole (s : string) : String.substring 0 (String.length s) s = s.
Proof. induction s as [|c s IH]; simpl; [reflexivity | by rewrite IH]. Qed.

Lemma hex_decode_encode (bs : list byte) :
  common.hex_decode (String.list_ascii_of_string (common.hex_encode bs)) = bs.
Proof.
  induction bs as [|b bs IH]; simpl; [reflexivity|].
  destruct (byte_hex_digits b) as (-> & -> & Hb). rewrite Hb, IH. reflexivity.
Qed.

(** The digits that [checksumHex] writes, in mixed case, decode to the bytes
    they encode, whatever the hash that chose the case. *)
Lemma hex_decode_checksum (bs hash : list byte) (i : nat) :
  common.hex_decode
    (common.checksum_digits (String.list_ascii_of_string (common.hex_encode bs)) hash i)
  = bs.
Proof.
  revert i. induction bs as [|b bs IH]; intros i; simpl; [reflexivity|].
  destruct (byte_hex_digits b) as (Hhi & Hlo & Hb).
  destruct (byte_hex_digits_upper b) as (Hhi' & Hlo').
  assert (H1 : ∀ P (d : Decision P) c n,
             (P → common.hex_value (common.upper c) = Some n) →
             common.hex_value c = Some n →
             common.hex_value (if d then common.upper c else c) = Some n)
    by (intros P d c n Hu Hl; destruct d; auto).
  rewrite (H1 _ _ _ (byte_to_Z b / 16)); [|intros [Hgt _]; auto | exact Hhi].
  rewrite (H1 _ _ _ (byte_to_Z b mod 16)); [|intros [Hgt _]; auto | exact Hlo].
  rewrite Hb, IH. reflexivity.
Qed.

Lemma checksum_digits_length (digits : list Ascii.ascii) (hash : list byte) (i : nat) :
  length (common.checksum_digits digits hash i) = length digits.
Proof.
  revert i. induction digits as [|c r IH]; intros i; simpl; [reflexivity | by rewrite IH].
Qed.

Lemma string_length_of_list (l : list Ascii.ascii) :
  String.length (String.string_of_list_ascii l) = length l.
Proof. induction l as [|c l IH]; simpl; [reflexivity | by rewrite IH]. Qed.

Lemma list_ascii_length (s : string) :
  length (String.list_ascii_of_string s) = String.length s.
Proof. induction s as [|c s IH]; simpl; [reflexivity | by rewrite IH]. Qed.

Lemma odd_double (n : nat) : Nat.odd (2 * n) = false.
Proof.
  rewrite <- Nat.negb_even. rewrite Nat.even_mul. reflexivity.
Qed.

Lemma FromHex_0x (s : string) :
  Nat.odd (String.length s) = false →
  common.FromHex ("0x" +:+ s) = common.hex_decode (String.list_ascii_of_string s).
Proof.
  intros Heven. unfold common.FromHex.
  change ("0x" +:+ s) with (String.String "0" (String.String "x" s)).
  cbn [common.has0xPrefix String.length String.substring Nat.sub].
  assert (Hprefix : bool_decide ("0"%char = "0"%char)
                    && (bool_decide ("x"%char = "x"%char)
                        || bool_decide ("x"%char = "X"%char)) = true) by reflexivity.
  rewrite Hprefix, Nat.sub_0_r, substring_whole, Heven. reflexivity.
Qed.

Lemma FromHex_Hash_Hex (h : common.Hash) : common.FromHex (common.Hash_Hex h) = h.
Proof.
  unfold common.Hash_Hex. rewrite FromHex_0x.
  - apply hex_decode_encode.
  - rewrite hex_encode_length. apply odd_double.
Qed.

Lemma FromHex_Address_Hex (a : common.Address) :
  common.FromHex (common.Address_Hex a) = a.
Proof.
  unfold common.Address_Hex. cbv zeta. rewrite FromHex_0x.
  - rewrite String.list_ascii_of_string_of_list_ascii. apply hex_decode_checksum.
  - rewrite string_length_of_list, checksum_digits_length, list_ascii_length,
      hex_encode_length. apply odd_double.
Qed.

Lemma BytesToAddress_exact (a : list byte) :
  length a = common.AddressLength → common.BytesToAddress a = a.
Proof.
  intros Hlen. unfold common.BytesToAddress. rewrite Hlen.
  destruct (decide _); [lia|]. rewrite Hlen, Nat.sub_diag. reflexivity.
Qed.

Lemma BytesToAddress_length (b : list byte) :
  length (common.BytesToAddress b) = common.AddressLength.
Proof.
  unfold common.BytesToAddress.
  destruct (decide _) as [Hlong|Hshort].
  - rewrite length_app, length_replicate, length_drop. lia.
  - rewrite length_app, length_replicate. lia.
Qed.

Lemma bind_Ret_inv {A B} (o : outcome A) (k : A → outcome B) (b : B) :
  o ≫= k = Ret b → ∃ a, o = Ret a ∧ k a = Ret b.
Proof. destruct o as [a| |]; simpl; intros Hk; [by exists a | discriminate..]. Qed.

(** The fields of the row that an accepted event becomes. *)
Lemma eventRow_Ret (event : Event.t) (row : PostgresStorage.EventRow) :
  PostgresStorage.eventRow event = Ret row →
  PostgresStorage.varchar 50 (Event.Chain event) = Ret (PostgresStorage.chain row) ∧
  PostgresStorage.bigint (Event.BlockNumber event) = Ret (PostgresStorage.block_number row) ∧
  PostgresStorage.varchar 66 (Event.TransactionHash event)
    = Ret (PostgresStorage.transaction_hash row) ∧
  PostgresStorage.int (Event.LogIndex event) = Ret (PostgresStorage.log_index row) ∧
  PostgresStorage.varchar 42 (common.Address_Hex (Event.Address event))
    = Ret (PostgresStorage.address row) ∧
  PostgresStorage.data row = Event.Data event.
Proof.
  unfold PostgresStorage.eventRow. intros Hrow.
  apply bind_Ret_inv in Hrow as (c & Hc & Hrow).
  apply bind_Ret_inv in Hrow as (n & Hn & Hrow).
  apply bind_Ret_inv in Hrow as (bh & Hbh & Hrow).
  apply bind_Ret_inv in Hrow as (th & Hth & Hrow).
  apply bind_Ret_inv in Hrow as (li & Hli & Hrow).
  apply bind_Ret_inv in Hrow as (ad & Had & Hrow).
  apply bind_Ret_inv in Hrow as (en & Hen & Hrow).
  apply bind_Ret_inv in Hrow as (pr & Hpr & Hrow).
  injection Hrow as <-. simpl. by repeat split.
Qed.

Lemma varchar_fits (n : nat) (s : string) :
  (String.length s ≤ n)%nat → PostgresStorage.varchar n s = Ret s.
Proof. intros Hfit. unfold PostgresStorage.varchar. destruct (decide _); [done | lia]. Qed.

Lemma Address_Hex_length (a : common.Address) :
  String.length (common.Address_Hex a) = (2 + 2 * length a)%nat.
Proof.
  unfold common.Address_Hex. cbv zeta.
  change ("0x" +:+ ?s) with (String.String "0" (String.String "x" s)).
  cbn [String.length].
  rewrite string_length_of_list, checksum_digits_length, list_ascii_length,
    hex_encode_length. reflexivity.
Qed.

Lemma Hash_Hex_length (h : common.Hash) :
  String.length (common.Hash_Hex h) = (2 + 2 * length h)%nat.
Proof.
  unfold common.Hash_Hex.
  change ("0x" +:+ ?s) with (String.String "0" (String.String "x" s)).
  cbn [String.length]. rewrite hex_encode_length. reflexivity.
Qed.

(** X1. The address text that [SaveEvents] writes into the [address] column
    ([event.Address.Hex()], the mixed-case checksum form) is read back to the
    same 20-byte address by [common.HexToAddress], as [GetEvents] does. *)
Theorem stored_address_reads_back (event : Event.t) (row : PostgresStorage.EventRow) :
  length (Event.Address event) = common.AddressLength →
  PostgresStorage.eventRow event = Ret row →
  common.HexToAddress (PostgresStorage.address row) = Event.Address event.
Proof.
  intros Hlen Hrow.
  destruct (eventRow_Ret _ _ Hrow) as (_ & _ & _ & _ & Haddr & _).
  rewrite varchar_fits in Haddr by (rewrite Address_Hex_length, Hlen; simpl; lia).
  injection Haddr as <-.
  unfold common.HexToAddress. rewrite FromHex_Address_Hex.
  by apply BytesToAddress_exact.
Qed.

Lemma stored_address_reads_back_witness :
  ∃ row, PostgresStorage.eventRow swapEvent = Ret row ∧
         common.HexToAddress (PostgresStorage.address row) = Event.Address swapEvent.
Proof.
  eexists. split; [vm_compute; reflexivity|].
  apply (stored_address_reads_back swapEvent); [reflexivity | vm_compute; reflexivity].
Defined.

(** ** ParseTransferEvent *)

Lemma HexToAddress_Hash_Hex (h : common.Hash) :
  common.HexToAddress (common.Hash_Hex h) = common.BytesToAddress h.
Proof. unfold common.HexToAddress. by rewrite FromHex_Hash_Hex. Qed.

(** X2. [ParseTransferEvent] rejects a log that does not have exactly three
    topics; for three topics it returns the addresses of topics 1 and 2 (going
    through their hex text loses nothing) and the data read as one big-endian
    number, which are the [from], [to] and [amount] that the ERC-20 processor
    decodes from the same log when it tracks the emitting token. *)
Theorem ParseTransferEvent_agrees_with_processor
    (p : GenericERC20Processor.t) (log : types.Log) (t0 t1 t2 : common.Hash) :
  (length (types.Topics log) ≠ 3%nat →
   blockchain.ParseTransferEvent log = Err "invalid transfer event topics") ∧
  (types.Topics log = [t0; t1; t2] →
   blockchain.ParseTransferEvent log
   = Ret (Some (blockchain.mkTransferEvent (common.BytesToAddress t1)
                  (common.BytesToAddress t2) (big.SetBytes (types.Data log)))) ∧
   (types.Address log ∈ GenericERC20Processor.tokens p →
    ∃ event, Process (GenericERC20Processor.processor p) log = Ret (Some event) ∧
      Event.Data event !! "from" = Some (VAddress (common.BytesToAddress t1)) ∧
      Event.Data event !! "to" = Some (VAddress (common.BytesToAddress t2)) ∧
      Event.Data event !! "amount"
        = Some (VString (big.String (big.SetBytes (types.Data log)))))).
Proof.
  split.
  - intros Hlen. unfold blockchain.ParseTransferEvent.
    destruct (decide _); [reflexivity | contradiction].
  - intros Htopics. split.
    + unfold blockchain.ParseTransferEvent. rewrite Htopics.
      destruct (decide _) as [Hne|_]; [simpl in Hne; contradiction|].
      simpl. by rewrite !HexToAddress_Hash_Hex.
    + intros Htracked. apply isTracked_spec in Htracked.
      eexists. simpl. unfold GenericERC20Processor.Process.
      rewrite Htracked, Htopics. simpl.
      unfold topicAddress. rewrite Htopics. simpl.
      split; [reflexivity|]. simpl. repeat split; by simplify_map_eq.
Qed.

Lemma ParseTransferEvent_agrees_with_processor_witness :
  blockchain.ParseTransferEvent transferLog
  = Ret (Some (blockchain.mkTransferEvent (address_of_last_byte "170")
                 (address_of_last_byte "187") 5)) ∧
  ∃ event, Process D1 transferLog = Ret (Some event) ∧
    Event.Data event !! "from" = Some (VAddress (address_of_last_byte "170")) ∧
    Event.Data event !! "to" = Some (VAddress (address_of_last_byte "187")) ∧
    Event.Data event !! "amount" = Some (VString "5").
Proof.
  destruct (ParseTransferEvent_agrees_with_processor
              (GenericERC20Processor.New "erc20-a" [tokenA]) transferLog
              GenericERC20Processor.TransferSig
              (replicate 12 "000"%byte ++ address_of_last_byte "170")
              (replicate 12 "000"%byte ++ address_of_last_byte "187"))
    as [_ Hthree].
  destruct (Hthree eq_refl) as [Hparse Hagree].
  split; [exact Hparse|].
  apply Hagree. simpl. left.
Defined.
